(** * terraform-indexer: queue, parser registry and parser plugins

  A shallow embedding of the ingestion core of terraform-indexer
  (internal/queue, internal/parser, internal/model) together with the
  properties its specification states about it. *)

From Stdlib Require Import ZArith List Ascii String DecimalString Lia.
From stdpp Require Import gmap strings list.

Local Open Scope Z_scope.

(** ** crypto/sha256 (FIPS 180-4), on 32-bit words carried by [Z] *)

Module sha256.

Definition mask32 : Z := 0xFFFFFFFF.

Definition add32 (x y : Z) : Z := Z.land (x + y) mask32.

Definition rotr (n x : Z) : Z :=
  Z.lor (Z.shiftr x n) (Z.land (Z.shiftl x (32 - n)) mask32).

Definition not32 (x : Z) : Z := Z.lxor x mask32.

Definition Ch (x y z : Z) : Z := Z.lxor (Z.land x y) (Z.land (not32 x) z).

Definition Maj (x y z : Z) : Z :=
  Z.lxor (Z.lxor (Z.land x y) (Z.land x z)) (Z.land y z).

Definition bsig0 (x : Z) : Z := Z.lxor (Z.lxor (rotr 2 x) (rotr 13 x)) (rotr 22 x).
Definition bsig1 (x : Z) : Z := Z.lxor (Z.lxor (rotr 6 x) (rotr 11 x)) (rotr 25 x).
Definition ssig0 (x : Z) : Z := Z.lxor (Z.lxor (rotr 7 x) (rotr 18 x)) (Z.shiftr x 3).
Definition ssig1 (x : Z) : Z := Z.lxor (Z.lxor (rotr 17 x) (rotr 19 x)) (Z.shiftr x 10).

(** The constants are fractional parts of roots of the first primes: 32 bits
    of the cube roots of the first 64 primes for the round constants, of the
    square roots of the first 8 primes for the initial state. *)
Definition is_prime (n : nat) : bool :=
  forallb (fun d => negb (n mod d =? 0)%nat) (seq 2 (n - 2)).

Definition primes : list Z :=
  map Z.of_nat (filter is_prime (seq 2 310)).

(** The largest [c + d] with [d < 2 ^ bits] whose cube is at most [n]. *)
Fixpoint cube_root (bits : nat) (n c : Z) : Z :=
  match bits with
  | O => c
  | S b =>
      let c' := c + 2 ^ Z.of_nat b in
      cube_root b n (if c' * c' * c' <=? n then c' else c)
  end.

Definition K : list Z :=
  Eval vm_compute in
    map (fun p => Z.land (cube_root 40 (p * 2 ^ 96) 0) mask32) (firstn 64 primes).

Definition init : list Z :=
  Eval vm_compute in
    map (fun p => Z.land (Z.sqrt (p * 2 ^ 64)) mask32) (firstn 8 primes).

(** Big-endian encoding of [x] on [n] bytes. *)
Fixpoint be_bytes (n : nat) (x : Z) : list Z :=
  match n with
  | O => []
  | S n' => Z.land (Z.shiftr x (8 * Z.of_nat n')) 0xFF :: be_bytes n' x
  end.

Definition be_word (bs : list Z) : Z :=
  fold_left (fun acc b => Z.lor (Z.shiftl acc 8) b) bs 0.

(** Padding: 0x80, zeros up to 56 mod 64, then the bit length on 8 bytes. *)
Definition pad (msg : list Z) : list Z :=
  let len := Z.of_nat (length msg) in
  let zeros := Z.to_nat ((55 - len) mod 64) in
  msg ++ 0x80 :: repeat 0 zeros ++ be_bytes 8 (8 * len).

Fixpoint chunks (n : nat) (k : nat) (bs : list Z) : list (list Z) :=
  match n with
  | O => []
  | S n' => firstn k bs :: chunks n' k (skipn k bs)
  end.

(** Message schedule: [w] holds W[0..t-1]; extend it [n] more words. *)
Fixpoint schedule (n : nat) (w : list Z) : list Z :=
  match n with
  | O => w
  | S n' =>
      let t := length w in
      let at_ (k : nat) := nth (t - k) w 0 in
      schedule n'
        (w ++ [add32 (add32 (add32 (ssig1 (at_ 2%nat)) (at_ 7%nat)) (ssig0 (at_ 15%nat))) (at_ 16%nat)])
  end.

Definition round (st : list Z) (kw : Z * Z) : list Z :=
  match st with
  | [a; b; c; d; e; f; g; h] =>
      let t1 := add32 (add32 (add32 (add32 h (bsig1 e)) (Ch e f g)) (fst kw)) (snd kw) in
      let t2 := add32 (bsig0 a) (Maj a b c) in
      [add32 t1 t2; a; b; c; add32 d t1; e; f; g]
  | _ => st
  end.

Definition block (h : list Z) (blk : list Z) : list Z :=
  let w := schedule 48 (map be_word (chunks 16 4 blk)) in
  let st := fold_left round (combine K w) h in
  map (fun p => add32 (fst p) (snd p)) (combine h st).

(** [Sum256]: the 32-byte digest of a byte string. *)
Definition Sum256 (msg : list Z) : list Z :=
  let p := pad msg in
  let h := fold_left block (chunks (length p / 64) 64 p) init in
  concat (map (be_bytes 4) h).

End sha256.

(** ** The fragments of [fmt] the program uses *)

Module fmt.

Definition bytes (s : string) : list Z :=
  map (fun c => Z.of_nat (nat_of_ascii c)) (list_ascii_of_string s).

Definition hexdigit (d : Z) : ascii :=
  ascii_of_nat (Z.to_nat (if d <? 10 then 48 + d else 87 + d)).

(** [%x] on a byte slice: two lower-case hex digits per byte. *)
Fixpoint hex (bs : list Z) : string :=
  match bs with
  | [] => EmptyString
  | b :: bs' => String (hexdigit (b / 16)) (String (hexdigit (b mod 16)) (hex bs'))
  end.

(** [%d] on a non-negative int. *)
Definition dec (n : nat) : string := NilZero.string_of_uint (Nat.to_uint n).

End fmt.


Local Close Scope Z_scope.
Local Open Scope string_scope.
Local Open Scope list_scope.

(** ** Errors, contexts and wall-clock time *)

(** A Go [error], observed through its message. *)
Definition error : Type := string.

Definition Time : Type := Z.

Module context.

Definition Canceled : error := "context canceled".
Definition DeadlineExceeded : error := "context deadline exceeded".

(** A [context.Context] is observed through [Err()]: [None] (nil) until the
    context is done, the reason afterwards.  [<-ctx.Done()] is ready exactly
    when [Err()] is not nil. *)
Definition Context : Type := option error.

Definition Background : Context := None.

Definition Err (ctx : Context) : option error := ctx.

(** Cancelling a context that is already done keeps the first reason. *)
Definition cancel (e : error) (ctx : Context) : Context :=
  match ctx with Some e0 => Some e0 | None => Some e end.

End context.

(** ** internal/queue *)

Module queue.

(** Goroutine identifiers, used for the waiters of the condition variable. *)
Definition tid : Type := nat.

Section InMemoryQueue.

Variable T : Type.

(** The mutex is modelled by atomicity: each operation below is one critical
    section.  [cond] is the notify list of the [sync.Cond], the goroutines
    parked in [Wait], oldest first. *)
Record InMemoryQueue : Type := {
  items : list T;
  cond : list tid
}.

Definition NewInMemoryQueue : InMemoryQueue :=
  {| items := []; cond := [] |}.

(** [sync.Cond.Signal]: wakes the oldest waiter, if there is one. *)
Definition Signal (c : list tid) : list tid * list tid :=
  match c with
  | [] => ([], [])
  | t :: c' => (c', [t])
  end.

(** [sync.Cond.Broadcast]: wakes every waiter. *)
Definition Broadcast (c : list tid) : list tid * list tid := ([], c).

(** The result of an operation on the queue: the new queue, the goroutines
    it woke, and the returned error ([None] is nil). *)
Record effect : Type := {
  eff_queue : InMemoryQueue;
  eff_woken : list tid;
  eff_err : option error
}.

Definition Enqueue (ctx : context.Context) (item : T) (q : InMemoryQueue) : effect :=
  let its := items q ++ [item] in
  let '(c, woken) := Signal (cond q) in
  {| eff_queue := {| items := its; cond := c |}; eff_woken := woken; eff_err := None |}.

Definition Size (q : InMemoryQueue) : nat := length (items q).

Definition Close (q : InMemoryQueue) : effect :=
  let '(c, woken) := Broadcast (cond q) in
  {| eff_queue := {| items := items q; cond := c |}; eff_woken := woken; eff_err := None |}.

(** What a pass through the loop of [Dequeue] ends in: the call returns
    (an item, or the zero value with an error), or the goroutine parks in
    [cond.Wait()], releasing the mutex. *)
Inductive outcome : Type :=
| Returns (r : T + error)
| Parks.

(** [Dequeue], from taking the mutex (on entry, or on waking up inside
    [Wait]) to the next point where it gives the mutex up. *)
Definition Dequeue (me : tid) (ctx : context.Context) (q : InMemoryQueue)
  : InMemoryQueue * outcome :=
  match items q with
  | [] =>
      match context.Err ctx with
      | Some e => (q, Returns (inr e))
      | None => ({| items := items q; cond := cond q ++ [me] |}, Parks)
      end
  | item :: rest => ({| items := rest; cond := cond q |}, Returns (inl item))
  end.

(** *** Goroutines around one queue *)

Inductive pc : Type :=
| Running                      (* inside [Dequeue], about to test the loop guard *)
| Waiting                      (* parked in [cond.Wait()] *)
| Returned (r : T + error).    (* [Dequeue] has returned [r] *)

Record consumer : Type := {
  c_ctx : context.Context;
  c_pc : pc
}.

Record system : Type := {
  sys_queue : InMemoryQueue;
  sys_consumers : list consumer
}.

Inductive event : Type :=
| EvEnqueue (ctx : context.Context) (item : T)   (* a producer calls [Enqueue] *)
| EvClose                                        (* somebody calls [Close] *)
| EvCancel (t : tid) (e : error)                 (* the context of consumer [t] is cancelled *)
| EvRun (t : tid).                               (* consumer [t] is scheduled *)

Definition wake1 (t : tid) (cs : list consumer) : list consumer :=
  match cs !! t with
  | Some c => <[t := {| c_ctx := c_ctx c; c_pc := Running |}]> cs
  | None => cs
  end.

Definition wake (woken : list tid) (cs : list consumer) : list consumer :=
  foldr wake1 cs woken.

Definition apply_effect (e : effect) (cs : list consumer) : system :=
  {| sys_queue := eff_queue e; sys_consumers := wake (eff_woken e) cs |}.

(** One atomic step; [None] when the event is not enabled (a parked or
    returned consumer cannot run). *)
Definition step (s : system) (ev : event) : option system :=
  match ev with
  | EvEnqueue ctx item =>
      Some (apply_effect (Enqueue ctx item (sys_queue s)) (sys_consumers s))
  | EvClose =>
      Some (apply_effect (Close (sys_queue s)) (sys_consumers s))
  | EvCancel t e =>
      match sys_consumers s !! t with
      | Some c =>
          Some {| sys_queue := sys_queue s;
                  sys_consumers :=
                    <[t := {| c_ctx := context.cancel e (c_ctx c); c_pc := c_pc c |}]>
                      (sys_consumers s) |}
      | None => None
      end
  | EvRun t =>
      match sys_consumers s !! t with
      | Some {| c_ctx := ctx; c_pc := Running |} =>
          let '(q, o) := Dequeue t ctx (sys_queue s) in
          Some {| sys_queue := q;
                  sys_consumers :=
                    <[t := {| c_ctx := ctx;
                              c_pc := match o with
                                      | Returns r => Returned r
                                      | Parks => Waiting
                                      end |}]> (sys_consumers s) |}
      | _ => None
      end
  end.

Fixpoint run (s : system) (evs : list event) : option system :=
  match evs with
  | [] => Some s
  | ev :: evs' =>
      match step s ev with
      | Some s' => run s' evs'
      | None => None
      end
  end.

(** Events that signal or broadcast on the condition variable. *)
Definition notifies (ev : event) : bool :=
  match ev with
  | EvEnqueue _ _ | EvClose => true
  | _ => false
  end.

Definition pc_of (s : system) (t : tid) : option pc :=
  c_pc <$> sys_consumers s !! t.

(** The events that can release consumer [t] from an empty queue. *)
Definition releases (t : tid) (ev : event) : bool :=
  match ev with
  | EvEnqueue _ _ => true
  | EvCancel t' _ => bool_decide (t' = t)
  | _ => false
  end.

Definition blocked_on_empty (s : system) (t : tid) : Prop :=
  items (sys_queue s) = []
  /\ exists p, sys_consumers s !! t = Some {| c_ctx := None; c_pc := p |}
       /\ (p = Running \/ p = Waiting).

(** Consumer [t] is parked and its context is cancelled, with reason [e]. *)
Definition parked_cancelled (s : system) (t : tid) (e : error) : Prop :=
  sys_consumers s !! t = Some {| c_ctx := Some e; c_pc := Waiting |}.

(** One consumer, with a live context, about to call [Dequeue] on a new
    queue. *)
Definition one_consumer : system :=
  {| sys_queue := NewInMemoryQueue;
     sys_consumers := [ {| c_ctx := context.Background; c_pc := Running |} ] |}.

(** *** A single consumer without concurrent producers *)

Definition enqueue_all (ctx : context.Context) (xs : list T) (q : InMemoryQueue)
  : InMemoryQueue :=
  foldl (fun q x => eff_queue (Enqueue ctx x q)) q xs.

(** [n] calls of [Dequeue] in a row; [None] when a call parks, which without
    a producer is for ever. *)
Fixpoint dequeue_n (n : nat) (me : tid) (ctx : context.Context) (q : InMemoryQueue)
  : option (list (T + error) * InMemoryQueue) :=
  match n with
  | O => Some ([], q)
  | S n' =>
      match Dequeue me ctx q with
      | (q', Returns r) =>
          match dequeue_n n' me ctx q' with
          | Some (rs, q'') => Some (r :: rs, q'')
          | None => None
          end
      | (_, Parks) => None
      end
  end.

End InMemoryQueue.

Arguments items {T} _.
Arguments cond {T} _.
Arguments NewInMemoryQueue {T}.
Arguments Enqueue {T} _ _ _.
Arguments Size {T} _.
Arguments Close {T} _.
Arguments Dequeue {T} _ _ _.
Arguments Returns {T} _.
Arguments Parks {T}.
Arguments eff_queue {T} _.
Arguments eff_woken {T} _.
Arguments eff_err {T} _.
Arguments Running {T}.
Arguments Waiting {T}.
Arguments Returned {T} _.
Arguments c_ctx {T} _.
Arguments c_pc {T} _.
Arguments sys_queue {T} _.
Arguments sys_consumers {T} _.
Arguments EvEnqueue {T} _ _.
Arguments EvClose {T}.
Arguments EvCancel {T} _ _.
Arguments EvRun {T} _.
Arguments wake1 {T} _ _.
Arguments wake {T} _ _.
Arguments apply_effect {T} _ _.
Arguments step {T} _ _.
Arguments run {T} _ _.
Arguments notifies {T} _.
Arguments pc_of {T} _ _.
Arguments releases {T} _ _.
Arguments blocked_on_empty {T} _ _.
Arguments parked_cancelled {T} _ _ _.
Arguments one_consumer {T}.
Arguments enqueue_all {T} _ _ _.
Arguments dequeue_n {T} _ _ _ _.

End queue.

(** ** internal/model *)

Module model.

Definition FileSource : Type := string.
Definition FileSourceS3 : FileSource := "s3".
Definition FileSourceKubernetes : FileSource := "kubernetes".
Definition FileSourceBitbucket : FileSource := "bitbucket".

Definition FileType : Type := string.
Definition FileTypeTerraform : FileType := "tf".
Definition FileTypeState : FileType := "tfstate".

Definition TerraformObjectType : Type := string.
Definition ObjectTypeResource : TerraformObjectType := "resource".
Definition ObjectTypeProvider : TerraformObjectType := "provider".
Definition ObjectTypeVariable : TerraformObjectType := "variable".
Definition ObjectTypeOutput : TerraformObjectType := "output".
Definition ObjectTypeModule : TerraformObjectType := "module".
Definition ObjectTypeData : TerraformObjectType := "data".

(** The dynamic values ([any]) a configuration mapping holds: decoded JSON,
    or the string rendering of an HCL expression.  Numbers keep their
    literal. *)
#[warnings="-register-all"]
Inductive any : Type :=
| Null
| Bool (b : bool)
| Number (lit : string)
| Str (s : string)
| Arr (l : list any)
| Obj (kvs : list (string * any)).

Record TerraformFile : Type := {
  file_ID : string;
  file_Source : FileSource;
  file_SourcePath : string;
  file_FileType : FileType;
  file_Content : string;
  file_ContentHash : string;
  file_CollectedAt : Time;
  file_UpdatedAt : Time
}.

Record TerraformObject : Type := {
  obj_ID : string;
  obj_FileID : string;
  obj_Type : TerraformObjectType;
  obj_Name : string;
  obj_ResourceType : string;
  obj_Configuration : gmap string any;
  obj_Dependencies : list string;
  obj_Address : string;
  obj_Mode : string;
  obj_ProviderName : string;
  obj_SchemaVersion : Z;
  obj_SensitiveValues : list string;
  obj_CreatedAt : Time;
  obj_UpdatedAt : Time
}.

End model.

(** ** internal/parser *)

Module parser.

Import model.

(** *** Effects of the parsers

    The parsers read the wall clock ([time.Now()]); the registry calls
    parsers through the [Parser] interface.  Both are threaded through a
    world: the readings the clock will give, how many were taken, and the
    interface calls made so far (ghost state).  [None] as a result is a
    run-time panic. *)

Inductive call : Type :=
| CallCanParse (i : nat) (fileType : FileType)   (* [parsers[i].CanParse(fileType)] *)
| CallParse (i : nat) (file : TerraformFile).    (* [parsers[i].Parse(ctx, file)] *)

Record World : Type := {
  clock : nat -> Time;
  ticks : nat;
  calls : list call
}.

Definition M (A : Type) : Type := World -> option A * World.

Definition ret {A} (a : A) : M A := fun w => (Some a, w).

Definition bind {A B} (m : M A) (k : A -> M B) : M B :=
  fun w =>
    match m w with
    | (Some a, w') => k a w'
    | (None, w') => (None, w')
    end.

Definition panic {A} : M A := fun w => (None, w).

(** [time.Now()] *)
Definition Now : M Time :=
  fun w => (Some (clock w (ticks w)),
            {| clock := clock w; ticks := S (ticks w); calls := calls w |}).

Definition record_call (c : call) : M unit :=
  fun w => (Some tt, {| clock := clock w; ticks := ticks w; calls := calls w ++ [c] |}).

Notation "'let*' x ':=' m 'in' k" := (bind m (fun x => k))
  (at level 10, x pattern, m at level 100, k at level 200).

(** [for i, x := range l] with an accumulator, [i] counting from [i0]. *)
Fixpoint for_range {A B} (f : B -> nat -> A -> M B) (i0 : nat) (l : list A) (acc : B) : M B :=
  match l with
  | [] => ret acc
  | x :: l' => let* acc' := f acc i0 x in for_range f (S i0) l' acc'
  end.

(** The value a Go function with results [(T, error)] returns. *)
Definition result (A : Type) : Type := A * option error.

(** *** parser.go: the interface and the registry *)

Record Parser : Type := {
  Parse : context.Context -> TerraformFile -> M (result (list TerraformObject));
  CanParse : FileType -> bool
}.

Record ParserRegistry : Type := {
  parsers : list Parser
}.

Definition NewParserRegistry : ParserRegistry := {| parsers := [] |}.

Definition Register (r : ParserRegistry) (p : Parser) : ParserRegistry :=
  {| parsers := parsers r ++ [p] |}.

(** The loop of [ParserRegistry.Parse] from position [i] on. *)
Fixpoint Parse_from (i : nat) (ps : list Parser) (ctx : context.Context) (file : TerraformFile)
  : M (result (list TerraformObject)) :=
  match ps with
  | [] => ret ([], None)
  | p :: ps' =>
      let* _ := record_call (CallCanParse i (file_FileType file)) in
      if CanParse p (file_FileType file)
      then let* _ := record_call (CallParse i file) in Parse p ctx file
      else Parse_from (S i) ps' ctx file
  end.

Definition ParserRegistry_Parse (r : ParserRegistry) (ctx : context.Context) (file : TerraformFile)
  : M (result (list TerraformObject)) :=
  Parse_from 0 (parsers r) ctx file.

(** The world after the registry made the interface calls [cs]. *)
Definition logged (cs : list call) (w : World) : World :=
  {| clock := clock w; ticks := ticks w; calls := calls w ++ cs |}.

(** [CanParse] asked of the parsers at positions [i, i + n). *)
Definition asked (i n : nat) (fileType : FileType) : list call :=
  (fun k => CallCanParse k fileType) <$> seq i n.

Definition rejects (fileType : FileType) (p : Parser) : Prop := CanParse p fileType = false.

(** The calls dispatch makes when the parser at position [n] is the first
    that accepts: [CanParse] at positions [0..n], then one [Parse], at [n]. *)
Definition dispatch_calls (n : nat) (file : TerraformFile) : list call :=
  asked 0 (S n) (file_FileType file) ++ [CallParse n file].

(** *** state.go *)

Record StateInstance : Type := {
  inst_SchemaVersion : Z;
  inst_Attributes : gmap string any;
  inst_SensitiveAttrs : list string;
  inst_Dependencies : list string
}.

Record StateResource : Type := {
  res_Mode : string;
  res_Type : string;
  res_Name : string;
  res_Provider : string;
  res_Instances : list StateInstance
}.

Record TerraformState : Type := {
  st_Version : Z;
  st_TerraformVersion : string;
  st_Serial : Z;
  st_Lineage : string;
  st_Outputs : gmap string any;
  st_Resources : list StateResource
}.

(** [fmt.Sprintf("%s:%s:%s:%d", ...)], hashed, first 8 bytes in hex. *)
Definition generateObjectID (fileID resourceType name : string) (index : nat) : string :=
  let input := fileID +:+ ":" +:+ resourceType +:+ ":" +:+ name +:+ ":" +:+ fmt.dec index in
  fmt.hex (take 8 (sha256.Sum256 (fmt.bytes input))).

Definition byte_is (s : string) (i : nat) (p : ascii -> bool) : bool :=
  match String.get i s with
  | Some c => p c
  | None => false
  end.

Definition is_slash (c : ascii) : bool := Ascii.eqb c "/"%char.

(** A double quote or a closing bracket. *)
Definition is_close (c : ascii) : bool :=
  Ascii.eqb c "034"%char || Ascii.eqb c "]"%char.

(** [for i := n - 1; i >= 0; i--]: [start] becomes [i + 1] at the first
    ['/'] met, and stays as it is when there is none. *)
Fixpoint scan_slash (provider : string) (n : nat) (start : nat) : nat :=
  match n with
  | O => start
  | S i => if byte_is provider i is_slash then i + 1 else scan_slash provider i start
  end.

(** [for i := i; i < len(provider); i++] over at most [fuel] positions:
    [end] becomes [i] at the first double quote or closing bracket met. *)
Fixpoint scan_close (provider : string) (fuel : nat) (i : nat) (end_ : nat) : nat :=
  match fuel with
  | O => end_
  | S fuel' =>
      if (i <? String.length provider)%nat
      then if byte_is provider i is_close then i
           else scan_close provider fuel' (i + 1) end_
      else end_
  end.

Definition extractProviderName (provider : string) : string :=
  if (String.length provider =? 0)%nat then EmptyString
  else
    let start := scan_slash provider (String.length provider) (String.length provider - 1) in
    let end_ := scan_close provider (String.length provider) start (String.length provider) in
    if (start <? end_)%nat then substring start (end_ - start) provider
    else provider.

Section Parsers.

(** [json.Unmarshal] into a [TerraformState]: the decoded document, or the
    decoder's error. *)
Variable Unmarshal : string -> TerraformState + error.

Definition StateParser_CanParse (fileType : FileType) : bool :=
  bool_decide (fileType = FileTypeState).

(** The struct literal of [StateParser.Parse], given the two clock readings. *)
Definition object_of_instance (file : TerraformFile) (resource : StateResource)
    (i : nat) (instance : StateInstance) (createdAt updatedAt : Time) : TerraformObject :=
  {| obj_ID := generateObjectID (file_ID file) (res_Type resource) (res_Name resource) i;
     obj_FileID := file_ID file;
     obj_Type := ObjectTypeResource;
     obj_Name := res_Name resource;
     obj_ResourceType := res_Type resource;
     obj_Configuration := inst_Attributes instance;
     obj_Dependencies := [];
     obj_Address := res_Type resource +:+ "." +:+ res_Name resource;
     obj_Mode := res_Mode resource;
     obj_ProviderName := extractProviderName (res_Provider resource);
     obj_SchemaVersion := inst_SchemaVersion instance;
     obj_SensitiveValues := [];
     obj_CreatedAt := createdAt;
     obj_UpdatedAt := updatedAt |}.

Definition StateParser_object (file : TerraformFile) (resource : StateResource)
    (i : nat) (instance : StateInstance) : M TerraformObject :=
  let* createdAt := Now in
  let* updatedAt := Now in
  ret (object_of_instance file resource i instance createdAt updatedAt).

Definition StateParser_Parse (ctx : context.Context) (file : TerraformFile)
  : M (result (list TerraformObject)) :=
  match Unmarshal (file_Content file) with
  | inr err => ret ([], Some ("failed to parse state file: " +:+ err))
  | inl state =>
      let* objects :=
        for_range (fun objects _ resource =>
          for_range (fun objects i instance =>
            let* obj := StateParser_object file resource i instance in
            ret (objects ++ [obj]))
            0 (res_Instances resource) objects)
          0 (st_Resources state) [] in
      ret (objects, None)
  end.

Definition StateParser : Parser :=
  {| Parse := StateParser_Parse; CanParse := StateParser_CanParse |}.

(** *** terraform.go

    The HCL library is outside the repository.  Its objects are modelled by
    what the program observes of them in one call: an expression by its
    rendering under [%v], a body by the result of [JustAttributes()], a
    parsed file by the result of [Body.PartialContent] at the program's
    block schema. *)

Record Diagnostics : Type := {
  HasErrors : bool;
  Error : string
}.

Record Expression : Type := {
  fmt_v : string
}.

Record Attribute : Type := {
  attr_Name : string;
  attr_Expr : Expression
}.

Record Body : Type := {
  JustAttributes : gmap string Attribute * Diagnostics
}.

Record Block : Type := {
  blk_Type : string;
  blk_Labels : list string;
  blk_Body : Body
}.

Record BodyContent : Type := {
  Blocks : list Block
}.

Record File : Type := {
  PartialContent : BodyContent * Diagnostics
}.

(** [hclparse.NewParser().ParseHCL(src, filename)]: what the library replies
    to one call of [Parse].  Every call of [Parse] makes a parser and a
    syntax tree of its own, and the rendering of an expression under [%v]
    prints addresses of nodes of that tree: [fmt_v] belongs to the call, it
    is not a function of the source.  Two calls are two replies. *)
Variable ParseHCL : string -> string -> File * Diagnostics.

Definition TerraformParser_CanParse (fileType : FileType) : bool :=
  bool_decide (fileType = FileTypeTerraform).

Definition extractSimpleValue (expr : Expression) : result any :=
  (Str (fmt_v expr), None).

Definition extractConfiguration (body : Body) : result (gmap string any) :=
  let config : gmap string any := ∅ in
  let '(attrs, diags) := JustAttributes body in
  if HasErrors diags
  then (config, Some ("failed to get attributes: " +:+ Error diags))
  else
    (map_fold (fun name attr (config : gmap string any) =>
       match extractSimpleValue (attr_Expr attr) with
       | (val, None) => <[name := val]> config
       | (_, Some _) => <[name := Str (fmt_v (attr_Expr attr))]> config
       end) config attrs, None).

(** [block.Labels[i]]; out of range is a panic. *)
Definition label (block : Block) (i : nat) : M string :=
  match blk_Labels block !! i with
  | Some l => ret l
  | None => panic
  end.

(** The struct literal of [parseBlock], given the two clock readings. *)
Definition object_of_block (fileID : string) (objectType : TerraformObjectType)
    (name resourceType address : string) (config : gmap string any)
    (createdAt updatedAt : Time) : TerraformObject :=
  {| obj_ID := generateObjectID fileID objectType name 0;
     obj_FileID := fileID;
     obj_Type := objectType;
     obj_Name := name;
     obj_ResourceType := resourceType;
     obj_Configuration := config;
     obj_Dependencies := [];
     obj_Address := address;
     obj_Mode := EmptyString;
     obj_ProviderName := EmptyString;
     obj_SchemaVersion := 0%Z;
     obj_SensitiveValues := [];
     obj_CreatedAt := createdAt;
     obj_UpdatedAt := updatedAt |}.

(** The configuration [parseBlock] keeps: the empty map when extraction
    reports an error. *)
Definition block_config (block : Block) : gmap string any :=
  match extractConfiguration (blk_Body block) with
  | (config, None) => config
  | (_, Some _) => ∅
  end.

Definition parseBlock (fileID : string) (block : Block) : M (option TerraformObject * option error) :=
  let build (objectType : TerraformObjectType) (name resourceType address : string) :=
    let config := block_config block in
    let* createdAt := Now in
    let* updatedAt := Now in
    ret (Some (object_of_block fileID objectType name resourceType address config
                 createdAt updatedAt), None) in
  if decide (blk_Type block = "resource") then
    let* resourceType := label block 0 in
    let* name := label block 1 in
    build ObjectTypeResource name resourceType (resourceType +:+ "." +:+ name)
  else if decide (blk_Type block = "provider") then
    let* name := label block 0 in
    build ObjectTypeProvider name EmptyString ("provider." +:+ name)
  else if decide (blk_Type block = "variable") then
    let* name := label block 0 in
    build ObjectTypeVariable name EmptyString ("var." +:+ name)
  else if decide (blk_Type block = "output") then
    let* name := label block 0 in
    build ObjectTypeOutput name EmptyString ("output." +:+ name)
  else if decide (blk_Type block = "module") then
    let* name := label block 0 in
    build ObjectTypeModule name EmptyString ("module." +:+ name)
  else if decide (blk_Type block = "data") then
    let* resourceType := label block 0 in
    let* name := label block 1 in
    build ObjectTypeData name resourceType ("data." +:+ resourceType +:+ "." +:+ name)
  else
    ret (None, Some ("unknown block type: " +:+ blk_Type block)).

Definition TerraformParser_Parse (ctx : context.Context) (file : TerraformFile)
  : M (result (list TerraformObject)) :=
  let '(hclFile, diags) := ParseHCL (file_Content file) (file_SourcePath file) in
  if HasErrors diags
  then ret ([], Some ("failed to parse HCL: " +:+ Error diags))
  else
    let '(content, diags) := PartialContent hclFile in
    if HasErrors diags
    then ret ([], Some ("failed to parse content: " +:+ Error diags))
    else
      let* objects :=
        for_range (fun objects _ block =>
          let* r := parseBlock (file_ID file) block in
          match r with
          | (Some obj, None) => ret (objects ++ [obj])
          | _ => ret objects
          end)
          0 (Blocks content) [] in
      ret (objects, None).

Definition TerraformParser : Parser :=
  {| Parse := TerraformParser_Parse; CanParse := TerraformParser_CanParse |}.

End Parsers.

(** *** Descriptions of what the parsers return

    The records of a run are the struct literals above, stamped with
    consecutive clock readings. *)

Definition advance (n : nat) (w : World) : World :=
  {| clock := clock w; ticks := n + ticks w; calls := calls w |}.

(** The records one loop appends for the elements [l], numbered from [i0],
    with the readings of [clk] from [t0] on. *)
Fixpoint stamp {A} (mk : nat -> A -> Time -> Time -> TerraformObject)
    (i0 : nat) (l : list A) (clk : nat -> Time) (t0 : nat) : list TerraformObject :=
  match l with
  | [] => []
  | x :: l' => mk i0 x (clk t0) (clk (S t0)) :: stamp mk (S i0) l' clk (S (S t0))
  end.

Fixpoint stamp_resources (file : TerraformFile) (resources : list StateResource)
    (clk : nat -> Time) (t0 : nat) : list TerraformObject :=
  match resources with
  | [] => []
  | resource :: resources' =>
      stamp (object_of_instance file resource) 0 (res_Instances resource) clk t0
      ++ stamp_resources file resources' clk (2 * length (res_Instances resource) + t0)
  end.

(** The instances of a snapshot in document order, each with its resource
    block and its index in the block. *)
Definition instances_of (state : TerraformState)
  : list (StateResource * nat * StateInstance) :=
  flat_map (fun resource => imap (fun i instance => (resource, i, instance))
                              (res_Instances resource))
           (st_Resources state).

Definition total_instances (state : TerraformState) : nat :=
  sum_list (map (fun resource => length (res_Instances resource)) (st_Resources state)).

(** A record with its two timestamps blanked. *)
Definition erase_times (obj : TerraformObject) : TerraformObject :=
  {| obj_ID := obj_ID obj;
     obj_FileID := obj_FileID obj;
     obj_Type := obj_Type obj;
     obj_Name := obj_Name obj;
     obj_ResourceType := obj_ResourceType obj;
     obj_Configuration := obj_Configuration obj;
     obj_Dependencies := obj_Dependencies obj;
     obj_Address := obj_Address obj;
     obj_Mode := obj_Mode obj;
     obj_ProviderName := obj_ProviderName obj;
     obj_SchemaVersion := obj_SchemaVersion obj;
     obj_SensitiveValues := obj_SensitiveValues obj;
     obj_CreatedAt := 0%Z;
     obj_UpdatedAt := 0%Z |}.


(** The header the switch of [parseBlock] reads off a block: kind, name,
    resource type and address; [Some None] for a type outside the switch,
    [None] when a label is missing (the index panics). *)
Definition block_header (block : Block)
  : option (option (TerraformObjectType * string * string * string)) :=
  let two (objectType : TerraformObjectType) (address : string -> string -> string) :=
    match blk_Labels block !! 0, blk_Labels block !! 1 with
    | Some resourceType, Some name =>
        Some (Some (objectType, name, resourceType, address resourceType name))
    | _, _ => None
    end in
  let one (objectType : TerraformObjectType) (address : string -> string) :=
    match blk_Labels block !! 0 with
    | Some name => Some (Some (objectType, name, EmptyString, address name))
    | None => None
    end in
  if decide (blk_Type block = "resource") then
    two ObjectTypeResource (fun resourceType name => resourceType +:+ "." +:+ name)
  else if decide (blk_Type block = "provider") then
    one ObjectTypeProvider (fun name => "provider." +:+ name)
  else if decide (blk_Type block = "variable") then
    one ObjectTypeVariable (fun name => "var." +:+ name)
  else if decide (blk_Type block = "output") then
    one ObjectTypeOutput (fun name => "output." +:+ name)
  else if decide (blk_Type block = "module") then
    one ObjectTypeModule (fun name => "module." +:+ name)
  else if decide (blk_Type block = "data") then
    two ObjectTypeData (fun resourceType name => "data." +:+ resourceType +:+ "." +:+ name)
  else Some None.

Definition object_of_header (fileID : string) (block : Block)
    (h : TerraformObjectType * string * string * string)
    (createdAt updatedAt : Time) : TerraformObject :=
  let '(objectType, name, resourceType, address) := h in
  object_of_block fileID objectType name resourceType address (block_config block)
    createdAt updatedAt.

(** The records of the loop over the blocks; [None] when a block panics. *)
Fixpoint stamp_blocks (fileID : string) (blocks : list Block)
    (clk : nat -> Time) (t0 : nat) : option (list TerraformObject) :=
  match blocks with
  | [] => Some []
  | block :: blocks' =>
      match block_header block with
      | None => None
      | Some None => stamp_blocks fileID blocks' clk t0
      | Some (Some h) =>
          cons (object_of_header fileID block h (clk t0) (clk (S t0)))
            <$> stamp_blocks fileID blocks' clk (S (S t0))
      end
  end.

(** *** Two calls of [TerraformParser.Parse]

    The replies of the library to two calls on one source agree in
    everything but the renderings of the expressions. *)







(** *** The provider name, in the words of the specification *)

Fixpoint string_exists (p : ascii -> bool) (s : string) : bool :=
  match s with
  | EmptyString => false
  | String c s' => p c || string_exists p s'
  end.

(** The substring after the last ['/']; the whole string when it has none. *)
Fixpoint substring_after_last_slash (s : string) : string :=
  match s with
  | EmptyString => EmptyString
  | String c s' =>
      if string_exists is_slash s' then substring_after_last_slash s'
      else if is_slash c then s' else String c s'
  end.

(** The prefix before the first double quote or closing bracket. *)
Fixpoint until_close (s : string) : string :=
  match s with
  | EmptyString => EmptyString
  | String c s' => if is_close c then EmptyString else String c (until_close s')
  end.

(** What [extractProviderName] computes on a provider string that has a
    ['/']: the part after the last ['/'], cut at the first double quote or
    closing bracket; the whole string when that part is empty. *)
Definition provider_name_after_slash (provider : string) : string :=
  match until_close (substring_after_last_slash provider) with
  | EmptyString => provider
  | name => name
  end.

(** The provider string Terraform writes for the AWS provider,
    [provider["registry.terraform.io/hashicorp/aws"]]. *)
Definition aws_provider : string :=
  "provider[" +:+ String "034" ("registry.terraform.io/hashicorp/aws" +:+ String "034" "]").

(** A block as [PartialContent] delivers it under the program's schema: one
    of the six block types, with that type's number of labels. *)
Definition schema_ok (block : Block) : Prop :=
  (blk_Type block ∈ ["resource"; "data"] /\ length (blk_Labels block) = 2)
  \/ (blk_Type block ∈ ["provider"; "variable"; "output"; "module"]
      /\ length (blk_Labels block) = 1).

(** The four inputs the specification names for the identifier of a record
    whose instance index is [i]: owning item, kind tag, name, index. *)
Definition claimed_inputs (obj : TerraformObject) (i : nat)
  : string * TerraformObjectType * string * nat :=
  (obj_FileID obj, obj_Type obj, obj_Name obj, i).

(** A configuration that keeps [good1] and [good2] and leaves [bad] out. *)
Definition lenient (config : gmap string any) (good1 good2 bad : string) : Prop :=
  is_Some (config !! good1) /\ is_Some (config !! good2) /\ config !! bad = None.

(** The rendering [extractConfiguration] stores for an attribute. *)
Definition rendered (attr : Attribute) : any := Str (fmt_v (attr_Expr attr)).

End parser.

(** ** Sample inputs *)

Module testdata.

Import model parser.

Definition no_errors : Diagnostics := {| HasErrors := false; Error := EmptyString |}.

Definition some_errors : Diagnostics :=
  {| HasErrors := true; Error := "Unexpected block; Blocks are not allowed here." |}.

(** A decoder that knows one document: every non-empty content decodes to
    [doc]. *)
Definition decoder (doc : TerraformState) (content : string) : TerraformState + error :=
  if decide (content = EmptyString) then inr "unexpected end of JSON input" else inl doc.

(** An HCL parser that knows one file: every source parses to [blocks]. *)
Definition hcl (blocks : list Block) (src filename : string) : File * Diagnostics :=
  ({| PartialContent := ({| Blocks := blocks |}, no_errors) |}, no_errors).

Definition midnight : World := {| clock := Z.of_nat; ticks := 0; calls := [] |}.

Definition instance0 : StateInstance :=
  {| inst_SchemaVersion := 1%Z; inst_Attributes := {[ "ami" := Str "ami-0c55b159cbfafe1d0" ]};
     inst_SensitiveAttrs := []; inst_Dependencies := [] |}.

Definition managed (type name provider : string) (instances : list StateInstance)
  : StateResource :=
  {| res_Mode := "managed"; res_Type := type; res_Name := name;
     res_Provider := provider; res_Instances := instances |}.

Definition document (resources : list StateResource) : TerraformState :=
  {| st_Version := 4%Z; st_TerraformVersion := "1.0.0"; st_Serial := 1%Z;
     st_Lineage := "test-lineage"; st_Outputs := ∅; st_Resources := resources |}.

Definition tfstate (id : string) : TerraformFile :=
  {| file_ID := id; file_Source := FileSourceS3;
     file_SourcePath := "s3://bucket/terraform.tfstate";
     file_FileType := FileTypeState; file_Content := "{}";
     file_ContentHash := EmptyString; file_CollectedAt := 0%Z; file_UpdatedAt := 0%Z |}.

Definition tf (id : string) : TerraformFile :=
  {| file_ID := id; file_Source := FileSourceS3;
     file_SourcePath := "s3://bucket/main.tf";
     file_FileType := FileTypeTerraform; file_Content := "resource {}";
     file_ContentHash := EmptyString; file_CollectedAt := 0%Z; file_UpdatedAt := 0%Z |}.

(** Two resource blocks with one name and different types, then two whose
    type and name contain [':']. *)
Definition colliding : TerraformState :=
  document [ managed "aws_instance" "x" aws_provider [instance0];
             managed "aws_eip" "x" aws_provider [instance0];
             managed "a:b" "c" aws_provider [instance0];
             managed "a" "b:c" aws_provider [instance0] ].

(** One resource block with two instances, one with one. *)
Definition three_instances : TerraformState :=
  document [ managed "aws_instance" "web" aws_provider [instance0; instance0];
             managed "aws_eip" "ip" "aws" [instance0] ].

Definition attribute (name src : string) : Attribute :=
  {| attr_Name := name; attr_Expr := {| fmt_v := src |} |}.

(** [resource "aws_instance" "example"] with three attributes; [diags] is
    what [JustAttributes] reports on its body. *)
Definition example_block (diags : Diagnostics) : Block :=
  {| blk_Type := "resource";
     blk_Labels := ["aws_instance"; "example"];
     blk_Body :=
       {| JustAttributes :=
            ({[ "ami" := attribute "ami" "ami-0c55b159cbfafe1d0";
                "instance_type" := attribute "instance_type" "t2.micro";
                "bad" := attribute "bad" "undefined(1)" ]}, diags) |} |}.

(** A parser that accepts every file type and returns one fixed record list. *)
Definition constant_parser (objects : list TerraformObject) : Parser :=
  {| Parse := fun _ _ => ret (objects, None); CanParse := fun _ => true |}.

(** The real registry of the program, over the sample decoders: the
    snapshot parser registered first, then the declarative-config parser. *)
Definition registry (doc : TerraformState) (blocks : list Block) : ParserRegistry :=
  Register (Register NewParserRegistry (StateParser (decoder doc)))
           (TerraformParser (hcl blocks)).

(** A file whose type no parser knows. *)
Definition readme : TerraformFile :=
  {| file_ID := "r"; file_Source := FileSourceBitbucket;
     file_SourcePath := "bitbucket://repo/README.md";
     file_FileType := "md"; file_Content := "# readme";
     file_ContentHash := EmptyString; file_CollectedAt := 0%Z; file_UpdatedAt := 0%Z |}.

(** The part of [aws_provider] after its last ['/']. *)
Definition aws_tail : string := "aws" +:+ String "034" "]".

End testdata.

(** ** More of internal/queue: what a run hands out, and the notify list *)

Module queue_runs.

Import queue.

Section Runs.

Variable T : Type.

(** The item an [Enqueue] event puts in. *)
Definition enqueued (ev : event T) : list T :=
  match ev with
  | EvEnqueue _ item => [item]
  | _ => []
  end.

(** The item a step hands to the consumer it schedules: the value its
    [Dequeue] returns in that step, if it returns one. *)
Definition delivered (s : system T) (ev : event T) : list T :=
  match ev, step s ev with
  | EvRun t, Some s' =>
      match pc_of s' t with
      | Some (Returned (inl item)) => [item]
      | _ => []
      end
  | _, _ => []
  end.

(** The items handed out along a run, in the order of the steps. *)
Fixpoint deliveries (s : system T) (evs : list (event T)) : list T :=
  match evs with
  | [] => []
  | ev :: evs' =>
      match step s ev with
      | Some s' => delivered s ev ++ deliveries s' evs'
      | None => []
      end
  end.

(** The events that schedule consumer [t]. *)
Definition schedules (t : tid) (ev : event T) : bool :=
  match ev with
  | EvRun t' => bool_decide (t' = t)
  | _ => false
  end.

(** The notify list holds the parked consumers, each once. *)
Definition well_formed (s : system T) : Prop :=
  NoDup (cond (sys_queue s))
  /\ forall t, t ∈ cond (sys_queue s) <-> pc_of s t = Some Waiting.

End Runs.

Arguments enqueued {T} _.
Arguments delivered {T} _ _.
Arguments deliveries {T} _ _.
Arguments well_formed {T} _.
Arguments schedules {T} _ _.

End queue_runs.

(** ** internal/collector *)

Module collector.

Import model parser.

(** *** collector.go *)

Record BaseCollector : Type := {
  name : string;
  source : FileSource
}.

Definition NewBaseCollector (name : string) (source : FileSource) : BaseCollector :=
  {| name := name; source := source |}.

Definition Name (c : BaseCollector) : string := name c.

Definition Source (c : BaseCollector) : FileSource := source c.

Definition generateFileID (source : FileSource) (path : string) : string :=
  fmt.hex (take 8 (sha256.Sum256 (fmt.bytes (source +:+ ":" +:+ path)))).

Definition generateContentHash (content : string) : string :=
  fmt.hex (sha256.Sum256 (fmt.bytes content)).

Definition createTerraformFile (source : FileSource) (path content : string)
    (fileType : FileType) : M TerraformFile :=
  let* now := Now in
  ret {| file_ID := generateFileID source path;
         file_Source := source;
         file_SourcePath := path;
         file_FileType := fileType;
         file_Content := content;
         file_ContentHash := generateContentHash content;
         file_CollectedAt := now;
         file_UpdatedAt := now |}.

(** *** mock.go *)

(** In the two literals below a single quote stands for a double quote;
    [go_text] puts the double quotes back and joins the lines. *)
Definition go_text (lines : list string) : string :=
  let unquote (c : ascii) : ascii := if Ascii.eqb c "'"%char then "034"%char else c in
  String.concat (String "010" EmptyString)
    (map (fun l => string_of_list_ascii (map unquote (list_ascii_of_string l))) lines).

Definition tfContent : string :=
  go_text [
    "resource 'aws_instance' 'example' {";
    "  ami           = 'ami-0c55b159cbfafe1d0'";
    "  instance_type = 't2.micro'";
    "  ";
    "  tags = {";
    "    Name = 'HelloWorld'";
    "  }";
    "}" ].

Definition stateContent : string :=
  go_text [
    "{";
    "  'version': 4,";
    "  'terraform_version': '1.0.0',";
    "  'serial': 1,";
    "  'lineage': 'test-lineage',";
    "  'outputs': {},";
    "  'resources': [";
    "    {";
    "      'mode': 'managed',";
    "      'type': 'aws_instance', ";
    "      'name': 'example',";
    "      'provider': 'provider[\'registry.terraform.io/hashicorp/aws\']',";
    "      'instances': [";
    "        {";
    "          'schema_version': 1,";
    "          'attributes': {";
    "            'ami': 'ami-0c55b159cbfafe1d0',";
    "            'instance_type': 't2.micro',";
    "            'tags': {";
    "              'Name': 'HelloWorld'";
    "            }";
    "          },";
    "          'sensitive_attributes': []";
    "        }";
    "      ]";
    "    }";
    "  ]";
    "}" ].

(** A [MockCollector] is its embedded [BaseCollector]. *)
Definition MockCollector : Type := BaseCollector.

Definition NewMockCollector (name : string) (source : FileSource) : MockCollector :=
  NewBaseCollector name source.

Definition MockCollector_Collect (c : MockCollector) (ctx : context.Context)
  : M (result (list TerraformFile)) :=
  let files : list TerraformFile := [] in
  if decide (source c = FileSourceS3) then
    let* tfFile := createTerraformFile (source c) "s3://bucket/main.tf" tfContent
                     FileTypeTerraform in
    let files := files ++ [tfFile] in
    let* stateFile := createTerraformFile (source c) "s3://bucket/terraform.tfstate"
                        stateContent FileTypeState in
    let files := files ++ [stateFile] in
    ret (files, None)
  else if decide (source c = FileSourceKubernetes) then
    let* tfFile := createTerraformFile (source c)
                     "k8s://namespace/configmap/terraform-config" tfContent
                     FileTypeTerraform in
    let files := files ++ [tfFile] in
    ret (files, None)
  else if decide (source c = FileSourceBitbucket) then
    let* tfFile := createTerraformFile (source c) "bitbucket://repo/main.tf" tfContent
                     FileTypeTerraform in
    let files := files ++ [tfFile] in
    ret (files, None)
  else
    let* tfFile := createTerraformFile (source c) "main.tf" tfContent FileTypeTerraform in
    let files := files ++ [tfFile] in
    let* stateFile := createTerraformFile (source c) "terraform.tfstate" stateContent
                        FileTypeState in
    let files := files ++ [stateFile] in
    ret (files, None).

(** [filepath.Ext], with ['/'] as the path separator: the loop
    [for i := n - 1; i >= 0 && path[i] != '/'; i--] returns [path[i:]] at
    the first ['.'] met. *)
Fixpoint Ext_from (path : string) (n : nat) : string :=
  match n with
  | O => EmptyString
  | S i =>
      match String.get i path with
      | Some c =>
          if is_slash c then EmptyString
          else if Ascii.eqb c "."%char then substring i (String.length path - i) path
          else Ext_from path i
      | None => EmptyString
      end
  end.

Definition Ext (path : string) : string := Ext_from path (String.length path).

(** [strings.ToLower] on bytes: the letters A to Z are lowered, every other
    byte is kept.  On strings with bytes outside ASCII the library lowers
    the runes; no such rune is lowered to a byte of ".tf" or ".tfstate", so
    the comparisons of [determineFileType] come out the same. *)
Definition lower (c : ascii) : ascii :=
  let n := nat_of_ascii c in
  if ((65 <=? n) && (n <=? 90))%nat then ascii_of_nat (n + 32) else c.

Definition ToLower (s : string) : string :=
  string_of_list_ascii (map lower (list_ascii_of_string s)).

(** [strings.HasSuffix] *)
Definition HasSuffix (s suffix : string) : bool :=
  (String.length suffix <=? String.length s)%nat
  && String.eqb (substring (String.length s - String.length suffix)
                   (String.length suffix) s) suffix.

(** [strings.Contains] *)
Fixpoint Contains (s substr : string) : bool :=
  String.prefix substr s
  || match s with
     | EmptyString => false
     | String _ s' => Contains s' substr
     end.

Definition determineFileType (path : string) : FileType :=
  let ext := ToLower (Ext path) in
  if String.eqb ext ".tf" then FileTypeTerraform
  else if String.eqb ext ".tfstate" then FileTypeState
  else if Contains path "tfstate" || HasSuffix path ".json" then FileTypeState
  else FileTypeTerraform.

End collector.

(** ** More descriptions *)

Module descriptions.

Import model parser.

(** The registry [runIndexer] builds: the snapshot parser registered first,
    the declarative-config parser second. *)
Definition main_registry (Unmarshal : string -> TerraformState + error)
    (ParseHCL : string -> string -> File * Diagnostics) : ParserRegistry :=
  Register (Register NewParserRegistry (StateParser Unmarshal)) (TerraformParser ParseHCL).

(** The two parsers registered the other way round. *)
Definition swapped_registry (Unmarshal : string -> TerraformState + error)
    (ParseHCL : string -> string -> File * Diagnostics) : ParserRegistry :=
  Register (Register NewParserRegistry (TerraformParser ParseHCL)) (StateParser Unmarshal).

(** A clock that never goes back. *)
Definition monotone (clk : nat -> Time) : Prop :=
  forall i j, i <= j -> (clk i <= clk j)%Z.

(** The blocks [TerraformParser.Parse] loops over: those of the decoded
    file, when [ParseHCL] and [PartialContent] both report no error. *)
Definition decoded_blocks (ParseHCL : string -> string -> File * Diagnostics)
    (file : TerraformFile) : option (list Block) :=
  let '(hclFile, diags) := ParseHCL (file_Content file) (file_SourcePath file) in
  if HasErrors diags then None
  else
    let '(content, diags') := PartialContent hclFile in
    if HasErrors diags' then None else Some (Blocks content).

(** A dot or a path separator. *)
Definition is_dot_or_slash (c : ascii) : bool :=
  is_slash c || Ascii.eqb c "."%char.

(** A lower-case hexadecimal digit. *)
Definition is_hex (c : ascii) : bool :=
  let n := nat_of_ascii c in
  ((48 <=? n) && (n <=? 57) || (97 <=? n) && (n <=? 102))%nat.

Fixpoint string_forall (p : ascii -> bool) (s : string) : bool :=
  match s with
  | EmptyString => true
  | String c s' => p c && string_forall p s'
  end.

End descriptions.

(** ** More sample inputs *)

Module samples.

Import queue.

(** Two consumers with live contexts, both about to call [Dequeue] on a new
    queue of numbers. *)
Definition two_consumers : system nat :=
  {| sys_queue := NewInMemoryQueue;
     sys_consumers := [ {| c_ctx := context.Background; c_pc := Running |};
                        {| c_ctx := context.Background; c_pc := Running |} ] |}.

(** Both have parked, the second one first. *)
Definition two_parked : system nat :=
  {| sys_queue := {| items := []; cond := [1; 0] |};
     sys_consumers := [ {| c_ctx := context.Background; c_pc := Waiting |};
                        {| c_ctx := context.Background; c_pc := Waiting |} ] |}.


(** Both have parked; then the context of the first was cancelled. *)
Definition parked_and_cancelled : system nat :=
  {| sys_queue := {| items := []; cond := [1; 0] |};
     sys_consumers := [ {| c_ctx := Some context.Canceled; c_pc := Waiting |};
                        {| c_ctx := context.Background; c_pc := Waiting |} ] |}.

(** An HCL parser that knows one source: [known] parses to [blocks], every
    other source is reported as an error. *)
Definition hcl_of (known : string) (blocks : list parser.Block)
    (src filename : string) : parser.File * parser.Diagnostics :=
  if decide (src = known) then testdata.hcl blocks src filename
  else ({| parser.PartialContent := ({| parser.Blocks := [] |}, testdata.no_errors) |},
        testdata.some_errors).

(** [resource <type> <name>] without attributes. *)
Definition resource_block (type name : string) : parser.Block :=
  {| parser.blk_Type := "resource"; parser.blk_Labels := [type; name];
     parser.blk_Body := {| parser.JustAttributes := (∅, testdata.no_errors) |} |}.

(** A "tf" file with two resources of one name. *)
Definition two_resources_tf : model.TerraformFile :=
  {| model.file_ID := "f"; model.file_Source := model.FileSourceS3;
     model.file_SourcePath := "s3://bucket/main.tf";
     model.file_FileType := model.FileTypeTerraform;
     model.file_Content :=
       collector.go_text [ "resource 'aws_instance' 'x' {}";
                           "resource 'aws_eip' 'x' {}" ];
     model.file_ContentHash := EmptyString;
     model.file_CollectedAt := 0%Z; model.file_UpdatedAt := 0%Z |}.

Definition two_resources : list parser.Block :=
  [resource_block "aws_instance" "x"; resource_block "aws_eip" "x"].

(** A "tf" file with one resource that has one attribute. *)
Definition ami_tf : model.TerraformFile :=
  {| model.file_ID := "f"; model.file_Source := model.FileSourceS3;
     model.file_SourcePath := "s3://bucket/main.tf";
     model.file_FileType := model.FileTypeTerraform;
     model.file_Content :=
       collector.go_text [ "resource 'aws_instance' 'example' {";
                           "  ami           = 'ami-0c55b159cbfafe1d0'";
                           "}" ];
     model.file_ContentHash := EmptyString;
     model.file_CollectedAt := 0%Z; model.file_UpdatedAt := 0%Z |}.

(** The block of [ami_tf] as one call of [Parse] sees it.  The rendering
    stands for what [fmt] prints for the expression under [%v]; it holds
    [node], the address a node of the expression has in the tree of that
    call. *)
Definition example_block_at (node : string) : parser.Block :=
  {| parser.blk_Type := "resource";
     parser.blk_Labels := ["aws_instance"; "example"];
     parser.blk_Body :=
       {| parser.JustAttributes :=
            ({[ "ami" := testdata.attribute "ami"
                           ("&{[" +:+ node +:+ "] s3://bucket/main.tf:2,19-42}") ]},
             testdata.no_errors) |} |}.


(** The reply of the library to a call on [ami_tf] in which that node lies
    at [node]. *)
Definition hcl_at (node : string) : string -> string -> parser.File * parser.Diagnostics :=
  hcl_of (model.file_Content ami_tf) [example_block_at node].

(** A "tfstate" file without content. *)
Definition empty_tfstate (id : string) : model.TerraformFile :=
  {| model.file_ID := id; model.file_Source := model.FileSourceS3;
     model.file_SourcePath := "s3://bucket/terraform.tfstate";
     model.file_FileType := model.FileTypeState;
     model.file_Content := EmptyString;
     model.file_ContentHash := EmptyString;
     model.file_CollectedAt := 0%Z; model.file_UpdatedAt := 0%Z |}.

End samples.

(** * Properties *)

(** ** Test vectors for the hash (FIPS 180-4, appendix B) *)

Example sha256_empty :
  fmt.hex (sha256.Sum256 (fmt.bytes EmptyString)) =
  "e3b0c44298fc1c149afbf4c8996fb92427ae41e4649b934ca495991b7852b855".
Proof. vm_compute. reflexivity. Qed.

Example sha256_abc :
  fmt.hex (sha256.Sum256 (fmt.bytes "abc")) =
  "ba7816bf8f01cfea414140de5dae2223b00361a396177a9cb410ff61f20015ad".
Proof. vm_compute. reflexivity. Qed.

Example sha256_two_blocks :
  fmt.hex (sha256.Sum256 (fmt.bytes
    "aaaaaaaaaaaaaaaaaaaaaaaaaaaaaaaaaaaaaaaaaaaaaaaaaaaaaaaaaaaaaaaaaaaaaa")) =
  "6bd5e5034855a11241f0dee8fc72850ffd9955b28347a86428b5fa19119f6ad0".
Proof. vm_compute. reflexivity. Qed.

(** ** The queue *)

Section QueueProperties.

Import queue.

Context {T : Type}.

Implicit Types (q : InMemoryQueue T) (s : system T) (evs : list (event T)).
Implicit Types (ctx : context.Context) (t me : tid).

Lemma Enqueue_items ctx (item : T) q :
  items (eff_queue (Enqueue ctx item q)) = items q ++ [item].
Proof. unfold Enqueue. destruct (Signal (cond q)); reflexivity. Qed.

Lemma Enqueue_err ctx (item : T) q : eff_err (Enqueue ctx item q) = None.
Proof. unfold Enqueue. destruct (Signal (cond q)); reflexivity. Qed.

Lemma enqueue_all_items ctx (xs : list T) q :
  items (enqueue_all ctx xs q) = items q ++ xs.
Proof.
  revert q. induction xs as [|x xs IH]; intros q; simpl.
  - by rewrite app_nil_r.
  - unfold enqueue_all in *. simpl. rewrite IH, Enqueue_items.
    by rewrite <- app_assoc.
Qed.

Lemma enqueue_all_cond ctx (xs : list T) q :
  cond q = [] -> cond (enqueue_all ctx xs q) = [].
Proof.
  revert q. induction xs as [|x xs IH]; intros q Hq; simpl; [done|].
  unfold enqueue_all in *. simpl. apply IH.
  unfold Enqueue. rewrite Hq. reflexivity.
Qed.

Lemma Dequeue_head me ctx (x : T) rest c :
  Dequeue me ctx {| items := x :: rest; cond := c |}
  = ({| items := rest; cond := c |}, Returns (inl x)).
Proof. reflexivity. Qed.

Lemma dequeue_n_prefix me ctx (xs ys : list T) c :
  dequeue_n (length xs) me ctx {| items := xs ++ ys; cond := c |}
  = Some (inl <$> xs, {| items := ys; cond := c |}).
Proof.
  induction xs as [|x xs IH]; simpl; [done|].
  rewrite IH. reflexivity.
Qed.

(** [C2] FIFO: after the items [xs] are enqueued into a new queue, [length xs]
    calls of [Dequeue] by one consumer all return, giving exactly [xs] in
    the order of the enqueues and leaving the queue empty; and a call on a
    queue that holds [x :: rest] returns [x], the oldest item, and leaves
    [rest].  This holds whatever the contexts are, so in particular for a
    context that is not cancelled. *)
Theorem Dequeue_fifo (xs : list T) me ctx ctx' :
  dequeue_n (length xs) me ctx' (enqueue_all ctx xs NewInMemoryQueue)
    = Some (inl <$> xs, NewInMemoryQueue)
  /\ forall (x : T) rest c,
       Dequeue me ctx' {| items := x :: rest; cond := c |}
       = ({| items := rest; cond := c |}, Returns (inl x)).
Proof.
  split; [|intros; apply Dequeue_head].
  pose proof (enqueue_all_items ctx xs NewInMemoryQueue) as Hi.
  pose proof (enqueue_all_cond ctx xs NewInMemoryQueue eq_refl) as Hc.
  destruct (enqueue_all ctx xs NewInMemoryQueue) as [its c]; simpl in *; subst.
  rewrite <- (app_nil_r xs) at 2. apply dequeue_n_prefix.
Qed.

(** [C10] [Enqueue] never fails: in every queue state, for every item and
    every context (cancelled or not), it returns a nil error and the buffer
    is the old buffer followed by the item; the same holds on a queue on
    which [Close] has been called; and among goroutines the event is always
    enabled, the producer is never made to wait. *)
Theorem Enqueue_never_fails ctx (item : T) q :
  (eff_err (Enqueue ctx item q) = None
   /\ items (eff_queue (Enqueue ctx item q)) = items q ++ [item])
  /\ (eff_err (Close q) = None
      /\ eff_err (Enqueue ctx item (eff_queue (Close q))) = None
      /\ items (eff_queue (Enqueue ctx item (eff_queue (Close q)))) = items q ++ [item])
  /\ forall s, exists s',
       step s (EvEnqueue ctx item) = Some s'
       /\ items (sys_queue s') = items (sys_queue s) ++ [item].
Proof.
  split; [|split].
  - split; [apply Enqueue_err | apply Enqueue_items].
  - split; [reflexivity|].
    split; [apply Enqueue_err | by rewrite Enqueue_items].
  - intros s. eexists. split; [reflexivity|]. simpl. apply Enqueue_items.
Qed.

End QueueProperties.

Section QueueBlocking.

Import queue.

Context {T : Type}.

Implicit Types (q : InMemoryQueue T) (s : system T) (ev : event T) (evs : list (event T)).
Implicit Types (ctx : context.Context) (t me : tid) (c : consumer T) (cs : list (consumer T)).

(** Waking goroutines never touches a context, and turns a program point
    into [Running] or leaves it alone. *)
Lemma wake_lookup woken cs t :
  wake woken cs !! t = cs !! t
  \/ exists c, cs !! t = Some c
       /\ wake woken cs !! t = Some {| c_ctx := c_ctx c; c_pc := Running |}.
Proof.
  induction woken as [|w woken IH]; simpl; [by left|].
  unfold wake1.
  destruct (wake woken cs !! w) as [cw|] eqn:Hw; [|exact IH].
  destruct (decide (w = t)) as [->|Hne].
  - right. rewrite list_lookup_insert_eq by (eapply lookup_lt_Some; eauto).
    destruct IH as [IH | (c & Hc & IH)].
    + exists cw. split; [congruence | reflexivity].
    + exists c. split; [done|]. rewrite IH in Hw. by simplify_eq.
  - by rewrite list_lookup_insert_ne.
Qed.

Lemma blocked_on_empty_step s s' t ev :
  releases t ev = false -> step s ev = Some s' ->
  blocked_on_empty s t -> blocked_on_empty s' t.
Proof.
  intros Hev Hstep (Hitems & p & Hc & Hp).
  destruct ev as [ctx item| |t' e|t']; simpl in *; try discriminate.
  - (* Close *)
    simplify_eq. split; [done|]. simpl.
    destruct (wake_lookup (cond (sys_queue s)) (sys_consumers s) t)
      as [Heq | (c & Hc' & Heq)].
    + exists p. by rewrite Heq.
    + exists Running. rewrite Heq. rewrite Hc in Hc'. simplify_eq. auto.
  - (* Cancel of another consumer *)
    apply bool_decide_eq_false in Hev.
    destruct (sys_consumers s !! t') as [c'|] eqn:Hc'; [|discriminate].
    simplify_eq. split; [done|]. exists p. simpl.
    by rewrite list_lookup_insert_ne.
  - (* a consumer runs *)
    destruct (sys_consumers s !! t') as [[ctx' [| |r]]|] eqn:Hc'; try discriminate.
    unfold Dequeue in Hstep. rewrite Hitems in Hstep.
    destruct (decide (t' = t)) as [->|Hne].
    + rewrite Hc in Hc'. simplify_eq. simpl in Hstep. simplify_eq.
      split; [done|]. simpl.
      exists Waiting. rewrite list_lookup_insert_eq by (eapply lookup_lt_Some; eauto).
      auto.
    + destruct (context.Err ctx'); simpl in Hstep; simplify_eq; (split; [done|]);
        exists p; simpl; by rewrite list_lookup_insert_ne.
Qed.

Lemma blocked_on_empty_run evs s s' t :
  existsb (releases t) evs = false -> run s evs = Some s' ->
  blocked_on_empty s t -> blocked_on_empty s' t.
Proof.
  revert s. induction evs as [|ev evs IH]; intros s Hevs Hrun Hb; simpl in *.
  - by simplify_eq.
  - apply orb_false_iff in Hevs as [Hev Hevs].
    destruct (step s ev) as [s1|] eqn:Hstep; [|discriminate].
    eauto using blocked_on_empty_step.
Qed.

(** [X5] The blocking half of [C1]: a consumer that enters [Dequeue] on an
    empty queue with a live context has not returned as long as no item was
    enqueued and its context was not cancelled. *)
Lemma Dequeue_blocks_while_empty evs s s' t r :
  items (sys_queue s) = [] ->
  sys_consumers s !! t = Some {| c_ctx := context.Background; c_pc := Running |} ->
  run s evs = Some s' ->
  pc_of s' t = Some (Returned r) ->
  existsb (releases t) evs = true.
Proof.
  intros Hitems Hc Hrun Hret.
  destruct (existsb (releases t) evs) eqn:Hex; [done|].
  destruct (blocked_on_empty_run evs s s' t Hex Hrun) as (_ & p & Hp & Hor).
  { split; [done|]. exists Running. auto. }
  unfold pc_of in Hret. rewrite Hp in Hret. simpl in Hret.
  destruct Hor; simplify_eq.
Qed.

Lemma parked_cancelled_step s s' t e ev :
  notifies ev = false -> step s ev = Some s' ->
  parked_cancelled s t e -> parked_cancelled s' t e.
Proof.
  unfold parked_cancelled. intros Hev Hstep Hc.
  destruct ev as [ctx item| |t' e'|t']; simpl in *; try discriminate.
  - destruct (sys_consumers s !! t') as [c'|] eqn:Hc'; [|discriminate].
    simplify_eq. simpl.
    destruct (decide (t' = t)) as [->|Hne].
    + rewrite list_lookup_insert_eq by (eapply lookup_lt_Some; eauto).
      rewrite Hc in Hc'. by simplify_eq.
    + by rewrite list_lookup_insert_ne.
  - destruct (sys_consumers s !! t') as [[ctx' [| |r]]|] eqn:Hc'; try discriminate.
    destruct (Dequeue t' ctx' (sys_queue s)) as [q o]. simplify_eq. simpl.
    destruct (decide (t' = t)) as [->|Hne]; [congruence|].
    by rewrite list_lookup_insert_ne.
Qed.

Lemma parked_cancelled_run evs s s' t e :
  forallb (fun ev => negb (notifies ev)) evs = true -> run s evs = Some s' ->
  parked_cancelled s t e -> parked_cancelled s' t e.
Proof.
  revert s. induction evs as [|ev evs IH]; intros s Hevs Hrun Hb; simpl in *.
  - by simplify_eq.
  - apply andb_true_iff in Hevs as [Hev Hevs]. apply negb_true_iff in Hev.
    destruct (step s ev) as [s1|] eqn:Hstep; [|discriminate].
    eauto using parked_cancelled_step.
Qed.

(** [C1], the cancellation half, on the code: the consumer calls [Dequeue]
    on the empty queue and parks; then its context is cancelled.  Whatever
    happens next, short of an [Enqueue] or a [Close], the consumer is still
    parked in [cond.Wait()] with its context cancelled: the call has not
    returned and cannot be scheduled. *)
Theorem Dequeue_parked_misses_cancellation evs s' :
  forallb (fun ev => negb (notifies ev)) evs = true ->
  run one_consumer ([EvRun 0; EvCancel 0 context.Canceled] ++ evs) = Some s' ->
  sys_consumers s' !! 0 = Some {| c_ctx := Some context.Canceled; c_pc := Waiting |}
  /\ step s' (EvRun 0) = None.
Proof.
  intros Hevs Hrun. simpl in Hrun.
  assert (parked_cancelled s' 0 context.Canceled) as Hp.
  { eapply parked_cancelled_run; [exact Hevs | exact Hrun | reflexivity]. }
  split; [exact Hp|]. simpl. unfold parked_cancelled in Hp. by rewrite Hp.
Qed.

(** The same consumer does return the cancellation once somebody calls
    [Close] and it is scheduled again. *)
Lemma Close_releases_cancelled_consumer :
  run (T := T) one_consumer [EvRun 0; EvCancel 0 context.Canceled; EvClose; EvRun 0]
  = Some {| sys_queue := NewInMemoryQueue;
            sys_consumers := [ {| c_ctx := Some context.Canceled;
                                  c_pc := Returned (inr context.Canceled) |} ] |}.
Proof. reflexivity. Qed.

(** And an item enqueued while it is parked wakes it up and is returned. *)
Lemma Enqueue_releases_parked_consumer ctx (item : T) :
  run (T := T) one_consumer [EvRun 0; EvEnqueue ctx item; EvRun 0]
  = Some {| sys_queue := NewInMemoryQueue;
            sys_consumers := [ {| c_ctx := context.Background;
                                  c_pc := Returned (inl item) |} ] |}.
Proof. reflexivity. Qed.

End QueueBlocking.

(** A run for [Dequeue_parked_misses_cancellation]: after parking and the
    cancellation, the context is cancelled twice more. *)
Lemma Dequeue_parked_misses_cancellation_witness :
  queue.sys_consumers
    {| queue.sys_queue := {| queue.items := @nil nat; queue.cond := [0] |};
       queue.sys_consumers :=
         [ {| queue.c_ctx := Some context.Canceled; queue.c_pc := queue.Waiting |} ] |} !! 0
    = Some {| queue.c_ctx := Some context.Canceled; queue.c_pc := queue.Waiting |}
  /\ queue.step
       {| queue.sys_queue := {| queue.items := @nil nat; queue.cond := [0] |};
          queue.sys_consumers :=
            [ {| queue.c_ctx := Some context.Canceled; queue.c_pc := queue.Waiting |} ] |}
       (queue.EvRun 0) = None.
Proof.
  apply (Dequeue_parked_misses_cancellation
           [queue.EvCancel 0 context.DeadlineExceeded; queue.EvCancel 0 context.Canceled]);
    reflexivity.
Defined.

(** ** The parser registry *)

Section RegistryProperties.

Import model parser.

Implicit Types (r : ParserRegistry) (p A B : Parser) (ps pre mid post : list Parser).
Implicit Types (ctx : context.Context) (file : TerraformFile) (w : World).

Lemma logged_nil w : logged [] w = w.
Proof. destruct w. unfold logged. simpl. by rewrite app_nil_r. Qed.

Lemma logged_logged cs cs' w : logged cs' (logged cs w) = logged (cs ++ cs') w.
Proof. unfold logged. simpl. by rewrite app_assoc. Qed.

Lemma record_call_logged c w : record_call c w = (Some tt, logged [c] w).
Proof. reflexivity. Qed.

(** The loop passes over rejecting parsers, asking each once. *)
Lemma Parse_from_rejecting i pre ps ctx file w :
  Forall (rejects (file_FileType file)) pre ->
  Parse_from i (pre ++ ps) ctx file w
  = Parse_from (i + length pre) ps ctx file
      (logged (asked i (length pre) (file_FileType file)) w).
Proof.
  intros Hpre. revert i w.
  induction Hpre as [|p pre Hp Hpre IH]; intros i w; simpl.
  - by rewrite Nat.add_0_r, logged_nil.
  - unfold bind at 1. rewrite record_call_logged, Hp.
    rewrite IH, logged_logged. f_equal. lia.
Qed.

Lemma Parse_from_accepting i p ps ctx file w :
  CanParse p (file_FileType file) = true ->
  Parse_from i (p :: ps) ctx file w
  = Parse p ctx file
      (logged [CallCanParse i (file_FileType file); CallParse i file] w).
Proof.
  intros Hp. simpl. unfold bind. rewrite record_call_logged, Hp.
  rewrite record_call_logged, logged_logged. reflexivity.
Qed.

Lemma dispatch_calls_bound n file c :
  c ∈ dispatch_calls n file ->
  match c with
  | CallCanParse k _ => k <= n
  | CallParse k _ => k = n
  end.
Proof.
  unfold dispatch_calls, asked. rewrite elem_of_app, list_elem_of_fmap.
  intros [(k & -> & Hk) | Hc].
  - apply elem_of_seq in Hk. lia.
  - apply list_elem_of_singleton in Hc. by subst.
Qed.

(** Whatever the registry holds: when some parser accepts, dispatch is the
    [Parse] of the first one that does, and no parser registered after that
    one is asked or called. *)
Lemma ParserRegistry_Parse_first_acceptor r i A ctx file w :
  parsers r !! i = Some A ->
  CanParse A (file_FileType file) = true ->
  exists k P,
    k <= i /\ parsers r !! k = Some P /\ CanParse P (file_FileType file) = true
    /\ Forall (rejects (file_FileType file)) (take k (parsers r))
    /\ ParserRegistry_Parse r ctx file w
       = Parse P ctx file (logged (dispatch_calls k file) w).
Proof.
  unfold ParserRegistry_Parse. destruct r as [ps]. simpl. intros Hi HA.
  assert (exists pre P post, ps = pre ++ P :: post
            /\ Forall (rejects (file_FileType file)) pre
            /\ CanParse P (file_FileType file) = true /\ length pre <= i)
    as (pre & P & post & -> & Hpre & HP & Hle).
  { clear w. revert i Hi. induction ps as [|p ps IH]; intros i Hi; [done|].
    destruct (CanParse p (file_FileType file)) eqn:Hp.
    - exists [], p, ps. repeat split; [constructor|done|simpl; lia].
    - destruct i as [|i]; simpl in Hi; [congruence|].
      destruct (IH i Hi) as (pre & P & post & -> & Hpre & HP & Hle).
      exists (p :: pre), P, post. repeat split; [by constructor|done|simpl; lia]. }
  exists (length pre), P. split; [done|].
  split; [by rewrite list_lookup_middle|]. split; [done|].
  split; [by rewrite take_app_length|].
  rewrite Parse_from_rejecting by done. rewrite Parse_from_accepting by done.
  rewrite logged_logged. simpl. unfold dispatch_calls, asked.
  rewrite seq_S, fmap_app. simpl. by rewrite <- app_assoc.
Qed.

(** [C3] Dispatch precedence.  In a registry where [A] is the first parser,
    in registration order, that accepts the item's file type and [B], also
    accepting, was registered after [A]: dispatch is [A]'s [Parse] on the
    item, its result returned unchanged; the only [Parse] it calls is [A]'s;
    [B] (at position [n + 1 + length mid]) is never called, nor even asked
    [CanParse]. *)
Theorem ParserRegistry_Parse_first_match pre A mid B post ctx file w :
  Forall (rejects (file_FileType file)) pre ->
  CanParse A (file_FileType file) = true ->
  CanParse B (file_FileType file) = true ->
  let r := foldl Register NewParserRegistry (pre ++ A :: mid ++ B :: post) in
  let n := length pre in
  ParserRegistry_Parse r ctx file w = Parse A ctx file (logged (dispatch_calls n file) w)
  /\ (forall k f, CallParse k f ∈ dispatch_calls n file -> k = n /\ f = file)
  /\ (forall f ft, (CallParse (n + 1 + length mid) f ∉ dispatch_calls n file)
                   /\ (CallCanParse (n + 1 + length mid) ft ∉ dispatch_calls n file)).
Proof.
  intros Hpre HA HB r n.
  assert (parsers r = pre ++ A :: mid ++ B :: post) as Hr.
  { subst r. generalize (pre ++ A :: mid ++ B :: post). intros l.
    change l with (parsers NewParserRegistry ++ l) at 2.
    generalize NewParserRegistry. induction l as [|p l IH]; intros r0; simpl.
    - by rewrite app_nil_r.
    - rewrite IH. simpl. by rewrite <- app_assoc. }
  split; [|split].
  - unfold ParserRegistry_Parse. rewrite Hr.
    rewrite Parse_from_rejecting by done.
    rewrite Parse_from_accepting by done.
    rewrite logged_logged. simpl. unfold dispatch_calls, asked.
    rewrite seq_S, fmap_app. simpl. by rewrite <- app_assoc.
  - intros k f Hin. unfold dispatch_calls, asked in Hin.
    rewrite elem_of_app, list_elem_of_fmap in Hin.
    destruct Hin as [(j & Hj & _) | Hin]; [discriminate|].
    apply list_elem_of_singleton in Hin. by simplify_eq.
  - intros f ft. split; intros Hin; apply dispatch_calls_bound in Hin; lia.
Qed.

(** [C4] No parser accepts (the registry may be empty): dispatch returns the
    empty list and a nil error; it asks every parser [CanParse] and calls no
    [Parse]. *)
Theorem ParserRegistry_Parse_unmatched r ctx file w :
  Forall (rejects (file_FileType file)) (parsers r) ->
  ParserRegistry_Parse r ctx file w
  = (Some ([], None), logged (asked 0 (length (parsers r)) (file_FileType file)) w).
Proof.
  intros Hr. unfold ParserRegistry_Parse.
  rewrite <- (app_nil_r (parsers r)) at 1.
  rewrite Parse_from_rejecting by done. reflexivity.
Qed.

End RegistryProperties.

(** ** Loops that stamp records *)

Section Stamping.

Import model parser.

Lemma advance_advance a b w : advance a (advance b w) = advance (a + b) w.
Proof. unfold advance. simpl. f_equal. lia. Qed.

Lemma advance_0 w : advance 0 w = w.
Proof. by destruct w. Qed.

(** A loop whose body appends one stamped record per element. *)
Lemma for_range_stamp {A} (mk : nat -> A -> Time -> Time -> TerraformObject)
    (f : list TerraformObject -> nat -> A -> M (list TerraformObject)) :
  (forall acc i x w,
      f acc i x w
      = (Some (acc ++ [mk i x (clock w (ticks w)) (clock w (S (ticks w)))]), advance 2 w)) ->
  forall l i0 acc w,
    for_range f i0 l acc w
    = (Some (acc ++ stamp mk i0 l (clock w) (ticks w)), advance (2 * length l) w).
Proof.
  intros Hf. induction l as [|x l IH]; intros i0 acc w.
  - simpl. by rewrite app_nil_r, advance_0.
  - cbn [for_range stamp]. unfold bind. rewrite Hf, IH, advance_advance.
    rewrite <- app_assoc. repeat f_equal. simpl. lia.
Qed.

Lemma length_stamp {A} (mk : nat -> A -> Time -> Time -> TerraformObject) l i0 clk t0 :
  length (stamp mk i0 l clk t0) = length l.
Proof. revert i0 t0. induction l; intros; simpl; auto. Qed.

(** The stamped records, position by position. *)
Lemma stamp_Forall2 {A} (mk : nat -> A -> Time -> Time -> TerraformObject) l i0 clk t0 :
  Forall2 (fun obj '(i, x) => exists a b, obj = mk i x a b)
          (stamp mk i0 l clk t0) (imap (fun i x => (i0 + i, x)) l).
Proof.
  revert i0 t0. induction l as [|x l IH]; intros i0 t0; simpl; constructor.
  - rewrite Nat.add_0_r. eauto.
  - rewrite (imap_ext _ (fun i x => (S i0 + i, x))); [apply IH|].
    intros i y _. simpl. f_equal. lia.
Qed.


End Stamping.

(** ** The snapshot parser *)

Section StateParserProperties.

Import model parser.

Variable Unmarshal : string -> TerraformState + error.

Implicit Types (ctx : context.Context) (file : TerraformFile) (w : World).
Implicit Types (state : TerraformState) (resource : StateResource).

Lemma StateParser_object_eq file resource i instance w :
  StateParser_object file resource i instance w
  = (Some (object_of_instance file resource i instance
             (clock w (ticks w)) (clock w (S (ticks w)))), advance 2 w).
Proof. reflexivity. Qed.

Lemma StateParser_resources file resources :
  forall acc w,
    for_range (fun objects (_ : nat) resource =>
      for_range (fun objects i instance =>
        let* obj := StateParser_object file resource i instance in
        ret (objects ++ [obj]))
        0 (res_Instances resource) objects)
      0 resources acc w
    = (Some (acc ++ stamp_resources file resources (clock w) (ticks w)),
       advance (2 * sum_list (map (fun r => length (res_Instances r)) resources)) w).
Proof.
  generalize 0 at 2.
  induction resources as [|resource resources IH]; intros i0 acc w.
  - simpl. by rewrite app_nil_r, advance_0.
  - cbn [for_range]. unfold bind at 1.
    rewrite (for_range_stamp (object_of_instance file resource)) by reflexivity.
    rewrite IH, advance_advance, <- app_assoc. simpl. f_equal. f_equal. lia.
Qed.

(** What [StateParser.Parse] returns on a document that decodes. *)
Lemma StateParser_Parse_decoded ctx file w state :
  Unmarshal (file_Content file) = inl state ->
  StateParser_Parse Unmarshal ctx file w
  = (Some (stamp_resources file (st_Resources state) (clock w) (ticks w), None),
     advance (2 * total_instances state) w).
Proof.
  intros Hdec. unfold StateParser_Parse. rewrite Hdec.
  unfold bind at 1. rewrite StateParser_resources. reflexivity.
Qed.

Lemma StateParser_Parse_failed ctx file w err :
  Unmarshal (file_Content file) = inr err ->
  StateParser_Parse Unmarshal ctx file w
  = (Some ([], Some ("failed to parse state file: " +:+ err)), w).
Proof. intros Hdec. unfold StateParser_Parse. by rewrite Hdec. Qed.

Lemma length_stamp_resources file resources clk t0 :
  length (stamp_resources file resources clk t0)
  = sum_list (map (fun r => length (res_Instances r)) resources).
Proof.
  revert t0. induction resources as [|r rs IH]; intros t0; simpl; [done|].
  by rewrite length_app, length_stamp, IH.
Qed.

Lemma stamp_resources_Forall2 file resources clk t0 :
  Forall2 (fun obj '(resource, i, instance) =>
             exists a b, obj = object_of_instance file resource i instance a b)
          (stamp_resources file resources clk t0)
          (flat_map (fun resource => imap (fun i instance => (resource, i, instance))
                                       (res_Instances resource)) resources).
Proof.
  revert t0. induction resources as [|r rs IH]; intros t0; simpl; [constructor|].
  apply Forall2_app; [|apply IH].
  pose proof (stamp_Forall2 (object_of_instance file r) (res_Instances r) 0 clk t0) as H.
  simpl in H. revert H. generalize (stamp (object_of_instance file r) 0 (res_Instances r) clk t0).
  intros objs H.
  rewrite <- (list_fmap_id objs).
  replace (imap (fun i instance => (r, i, instance)) (res_Instances r))
    with ((fun '(i, x) => (r, i, x)) <$> imap (fun i x => (i, x)) (res_Instances r)).
  - apply Forall2_fmap. eapply Forall2_impl; [exact H|]. by intros obj [i x].
  - by rewrite fmap_imap.
Qed.

(** [C5] Cardinality of the snapshot parser.  When the content decodes, the
    call returns, without error, as many records as the document has
    instances over all its resource blocks; the records follow the instances
    in document order, each of kind "resource" with address
    [<type>.<name>] of its resource block.  When the content does not
    decode, the call returns an error and no record. *)
Theorem StateParser_Parse_cardinality ctx file w :
  match Unmarshal (file_Content file) with
  | inl state =>
      exists objects w',
        StateParser_Parse Unmarshal ctx file w = (Some (objects, None), w')
        /\ length objects = total_instances state
        /\ Forall2 (fun obj '(resource, i, instance) =>
                      obj_Type obj = "resource"
                      /\ obj_Address obj = res_Type resource +:+ "." +:+ res_Name resource)
                   objects (instances_of state)
  | inr err =>
      exists e, StateParser_Parse Unmarshal ctx file w = (Some ([], Some e), w)
  end.
Proof.
  destruct (Unmarshal (file_Content file)) as [state|err] eqn:Hdec.
  - eexists _, _. split; [by apply StateParser_Parse_decoded|].
    split; [apply length_stamp_resources|].
    eapply Forall2_impl; [apply stamp_resources_Forall2|].
    intros obj [[resource i] instance] (a & b & ->). by split.
  - eexists. by apply StateParser_Parse_failed.
Qed.

End StateParserProperties.

(** ** The provider name *)

Section ProviderName.

Import model parser.

Implicit Types (s a b provider : string) (p : ascii -> bool).

Lemma append_cons c a b : String c a +:+ b = String c (a +:+ b).
Proof. reflexivity. Qed.

Lemma byte_is_append_l a b j p :
  j < String.length a -> byte_is (a +:+ b) j p = byte_is a j p.
Proof.
  unfold byte_is. revert j. induction a as [|c a IH]; intros j Hj; simpl in *; [lia|].
  destruct j as [|j]; [done|]. apply IH. lia.
Qed.

Lemma byte_is_append_r a b j p :
  byte_is (a +:+ b) (String.length a + j) p = byte_is b j p.
Proof. unfold byte_is. induction a as [|c a IH]; simpl; [done|]. apply IH. Qed.

Lemma string_exists_false s p j : string_exists p s = false -> byte_is s j p = false.
Proof.
  unfold byte_is. revert j. induction s as [|c s IH]; intros j Hs; simpl in *; [done|].
  apply orb_false_iff in Hs as [Hc Hs]. destruct j as [|j]; [done|]. by apply IH.
Qed.

Lemma length_append a b : String.length (a +:+ b) = String.length a + String.length b.
Proof. induction a as [|c a IH]; simpl; [done|]. by rewrite IH. Qed.

Lemma substring_append_r a b m : substring (String.length a) m (a +:+ b) = substring 0 m b.
Proof. induction a as [|c a IH]; simpl; [done|]. apply IH. Qed.

Lemma substring_append_l a b : substring 0 (String.length a) (a +:+ b) = a.
Proof.
  induction a as [|c a IH]; simpl; [by destruct b|]. by rewrite IH.
Qed.

(** The backward loop stops just after the last ['/']. *)
Lemma scan_slash_spec provider m start n :
  byte_is provider m is_slash = true ->
  S m <= n ->
  (forall j, S m <= j < n -> byte_is provider j is_slash = false) ->
  scan_slash provider n start = S m.
Proof.
  intros Hm. induction n as [|i IH]; intros Hle Hno; [lia|]. simpl.
  destruct (decide (i = m)) as [->|Hne].
  - rewrite Hm. lia.
  - rewrite Hno by lia. apply IH; [lia|]. intros j Hj. apply Hno. lia.
Qed.

(** The forward loop stops at the first closing character, or at the end. *)
Lemma scan_close_spec provider e :
  e <= String.length provider ->
  (e = String.length provider \/ byte_is provider e is_close = true) ->
  forall fuel i,
    i <= e -> String.length provider - i <= fuel ->
    (forall j, i <= j < e -> byte_is provider j is_close = false) ->
    scan_close provider fuel i (String.length provider) = e.
Proof.
  intros Hlen He. induction fuel as [|fuel IH]; intros i Hi Hfuel Hno; simpl.
  - lia.
  - destruct (Nat.ltb_spec i (String.length provider)) as [Hlt|Hge]; [|lia].
    destruct (decide (i = e)) as [->|Hne].
    + destruct He as [He|He]; [lia|]. by rewrite He.
    + rewrite Hno by lia. apply IH; [lia..|]. intros j Hj. apply Hno. lia.
Qed.

Lemma split_last_slash s :
  string_exists is_slash s = true ->
  exists pre, s = pre +:+ String "/" (substring_after_last_slash s)
    /\ string_exists is_slash (substring_after_last_slash s) = false.
Proof.
  induction s as [|c s IH]; simpl; [done|]. intros Hs.
  destruct (string_exists is_slash s) eqn:Hs'.
  - destruct (IH eq_refl) as (pre & Heq & Hno).
    exists (String c pre). rewrite append_cons. by rewrite <- Heq.
  - rewrite orb_false_r in Hs. rewrite Hs. exists EmptyString. simpl.
    unfold is_slash in Hs. apply Ascii.eqb_eq in Hs. by subst.
Qed.

Lemma split_until_close s :
  exists rest, s = until_close s +:+ rest
    /\ string_exists is_close (until_close s) = false
    /\ (rest = EmptyString \/ byte_is rest 0 is_close = true).
Proof.
  induction s as [|c s (rest & Heq & Hno & Hrest)]; simpl.
  - exists EmptyString. auto.
  - destruct (is_close c) eqn:Hc.
    + exists (String c s). simpl. split; [done|]. split; [done|].
      right. unfold byte_is. simpl. exact Hc.
    + exists rest. simpl. rewrite Hc, Hno, append_cons. by rewrite <- Heq.
Qed.

(** [extractProviderName] on a provider string that has a ['/']. *)
Lemma extractProviderName_after_slash provider :
  string_exists is_slash provider = true ->
  extractProviderName provider = provider_name_after_slash provider.
Proof.
  intros Hs. unfold provider_name_after_slash.
  destruct (split_last_slash provider Hs) as (pre & Hp & Hsuf).
  destruct (split_until_close (substring_after_last_slash provider))
    as (rest & Hsplit & Hname & Hrest).
  revert Hp Hsuf Hsplit Hname.
  generalize (until_close (substring_after_last_slash provider)).
  generalize (substring_after_last_slash provider).
  intros suf name Hp Hsuf -> Hname.
  assert (String.length provider = S (String.length pre) + String.length name + String.length rest) as Hlen.
  { rewrite Hp, length_append. simpl. rewrite length_append. lia. }
  unfold extractProviderName.
  destruct (Nat.eqb_spec (String.length provider) 0) as [|_]; [lia|].
  assert (scan_slash provider (String.length provider) (String.length provider - 1) = S (String.length pre))
    as ->.
  { apply scan_slash_spec; [|lia|].
    - rewrite Hp. rewrite <- (Nat.add_0_r (String.length pre)) at 1.
      by rewrite byte_is_append_r.
    - intros j Hj. rewrite Hp.
      replace j with (String.length pre + S (j - S (String.length pre))) by lia.
      rewrite byte_is_append_r. unfold byte_is. simpl.
      by apply string_exists_false. }
  assert (forall j, byte_is provider (S (String.length pre) + j) is_close = byte_is (name +:+ rest) j is_close)
    as Hshift.
  { intros j. rewrite Hp at 1. replace (S (String.length pre) + j) with (String.length pre + S j) by lia.
    by rewrite byte_is_append_r. }
  assert (scan_close provider (String.length provider) (S (String.length pre)) (String.length provider)
          = S (String.length pre) + String.length name) as ->.
  { apply scan_close_spec; [lia| |lia|lia|].
    - destruct Hrest as [->|Hrest]; [left; simpl in Hlen; lia|right].
      rewrite Hshift. rewrite <- (Nat.add_0_r (String.length name)).
      by rewrite byte_is_append_r.
    - intros j Hj. replace j with (S (String.length pre) + (j - S (String.length pre))) by lia.
      rewrite Hshift, byte_is_append_l by lia. by apply string_exists_false. }
  destruct name as [|c name].
  - simpl. rewrite Nat.add_0_r, Nat.ltb_irrefl. reflexivity.
  - destruct (Nat.ltb_spec (S (String.length pre)) (S (String.length pre) + String.length (String c name))) as [_|Hge];
      [|simpl in Hge; lia].
    replace (S (String.length pre) + String.length (String c name) - S (String.length pre))
      with (String.length (String c name)) by lia.
    assert (provider = (pre +:+ "/") +:+ (String c name +:+ rest)) as Hp'.
    { rewrite Hp. clear. generalize (String c name +:+ rest). intros x.
      induction pre as [|c' pre IH]; [done|].
      rewrite !append_cons. by rewrite IH. }
    rewrite Hp' at 1.
    replace (S (String.length pre)) with (String.length (pre +:+ "/"))
      by (rewrite length_append; simpl; lia).
    rewrite substring_append_r. apply substring_append_l.
Qed.

End ProviderName.

(** ** The declarative-config parser *)

Section TerraformParserProperties.

Import model parser.

Variable ParseHCL : string -> string -> File * Diagnostics.

Implicit Types (ctx : context.Context) (file : TerraformFile) (w : World).
Implicit Types (block : Block) (blocks : list Block) (body : Body).

(** The loop over the attributes stores the rendering of every attribute,
    in whatever order the map is walked. *)
Lemma extractConfiguration_eq body :
  extractConfiguration body
  = if HasErrors (JustAttributes body).2
    then (∅, Some ("failed to get attributes: " +:+ Error (JustAttributes body).2))
    else (rendered <$> (JustAttributes body).1, None).
Proof.
  unfold extractConfiguration. destruct (JustAttributes body) as [attrs diags]. simpl.
  destruct (HasErrors diags); [done|]. f_equal.
  apply (map_fold_weak_ind (fun r m => r = rendered <$> m)).
  - by rewrite fmap_empty.
  - intros name attr m r Hname ->. simpl. by rewrite fmap_insert.
Qed.

Lemma block_config_eq block :
  block_config block
  = if HasErrors (JustAttributes (blk_Body block)).2 then ∅
    else rendered <$> (JustAttributes (blk_Body block)).1.
Proof.
  unfold block_config. rewrite extractConfiguration_eq.
  by destruct (HasErrors (JustAttributes (blk_Body block)).2).
Qed.

Lemma parseBlock_eq fileID block w :
  parseBlock fileID block w
  = match block_header block with
    | None => (None, w)
    | Some None => (Some (None, Some ("unknown block type: " +:+ blk_Type block)), w)
    | Some (Some h) =>
        (Some (Some (object_of_header fileID block h
                       (clock w (ticks w)) (clock w (S (ticks w)))), None),
         advance 2 w)
    end.
Proof.
  unfold parseBlock, block_header, label.
  repeat case_decide;
    try (destruct (blk_Labels block !! 0) as [l0|]; [|reflexivity]);
    try (destruct (blk_Labels block !! 1) as [l1|]; [|reflexivity]);
    reflexivity.
Qed.

Lemma schema_ok_header block :
  schema_ok block -> exists h, block_header block = Some (Some h).
Proof.
  unfold schema_ok, block_header.
  intros [[Ht Hl]|[Ht Hl]];
    destruct (blk_Labels block) as [|l0 [|l1 [|l2 ls]]]; simpl in Hl; try lia;
    repeat (apply elem_of_cons in Ht as [Ht|Ht]); try (by apply elem_of_nil in Ht);
    rewrite Ht; repeat (case_decide; [try discriminate|]); simpl; eauto; done.
Qed.

(** The loop of [TerraformParser.Parse] over the blocks. *)
Lemma TerraformParser_blocks fileID blocks :
  forall i0 acc w,
    (for_range (fun objects (_ : nat) block =>
       let* r := parseBlock fileID block in
       match r with
       | (Some obj, None) => ret (objects ++ [obj])
       | _ => ret objects
       end) i0 blocks acc w).1
    = app acc <$> stamp_blocks fileID blocks (clock w) (ticks w).
Proof.
  induction blocks as [|block blocks IH]; intros i0 acc w.
  - simpl. by rewrite app_nil_r.
  - cbn [for_range stamp_blocks]. unfold bind at 1. unfold bind at 1.
    rewrite parseBlock_eq.
    destruct (block_header block) as [[h|]|]; simpl.
    + rewrite IH. simpl.
      destruct (stamp_blocks fileID blocks (clock w) (S (S (ticks w)))); simpl; [|done].
      by rewrite <- app_assoc.
    + apply IH.
    + done.
Qed.

(** What [TerraformParser.Parse] returns. *)
Lemma TerraformParser_Parse_eq ctx file w :
  (TerraformParser_Parse ParseHCL ctx file w).1
  = let '(hclFile, diags) := ParseHCL (file_Content file) (file_SourcePath file) in
    if HasErrors diags
    then Some ([], Some ("failed to parse HCL: " +:+ Error diags))
    else
      let '(content, diags') := PartialContent hclFile in
      if HasErrors diags'
      then Some ([], Some ("failed to parse content: " +:+ Error diags'))
      else (fun objects => (objects, None))
             <$> stamp_blocks (file_ID file) (Blocks content) (clock w) (ticks w).
Proof.
  unfold TerraformParser_Parse.
  destruct (ParseHCL (file_Content file) (file_SourcePath file)) as [hclFile diags].
  destruct (HasErrors diags); [done|].
  destruct (PartialContent hclFile) as [content diags'].
  destruct (HasErrors diags'); [done|].
  unfold bind at 1.
  pose proof (TerraformParser_blocks (file_ID file) (Blocks content) 0 [] w) as H.
  destruct (stamp_blocks (file_ID file) (Blocks content) (clock w) (ticks w));
    destruct (for_range _ 0 (Blocks content) [] w) as [[objects|] w'];
    simpl in *; by simplify_eq.
Qed.

Lemma erase_stamp_blocks fileID blocks :
  forall clk t0 clk' t0',
    map erase_times <$> stamp_blocks fileID blocks clk t0
    = map erase_times <$> stamp_blocks fileID blocks clk' t0'.
Proof.
  induction blocks as [|block blocks IH]; intros; simpl; [done|].
  destruct (block_header block) as [[[[[objectType name] resourceType] address]|]|];
    [|apply IH|done].
  rewrite <- !option_fmap_compose.
  specialize (IH clk (S (S t0)) clk' (S (S t0'))).
  destruct (stamp_blocks fileID blocks clk (S (S t0))),
           (stamp_blocks fileID blocks clk' (S (S t0'))); simpl in *;
    simplify_eq; [|done]. do 2 f_equal. done.
Qed.

Lemma stamp_blocks_Forall (P : TerraformObject -> Prop) fileID blocks :
  (forall block h a b, block ∈ blocks -> block_header block = Some (Some h) ->
                       P (object_of_header fileID block h a b)) ->
  forall clk t0 objects,
    stamp_blocks fileID blocks clk t0 = Some objects -> Forall P objects.
Proof.
  induction blocks as [|block blocks IH]; intros HP clk t0 objects; simpl.
  - intros [= <-]. constructor.
  - destruct (block_header block) as [[h|]|] eqn:Hh; [| |done].
    + destruct (stamp_blocks fileID blocks clk (S (S t0))) as [objs|] eqn:Hobjs;
        [|done]. intros [= <-]. constructor.
      * apply HP; [left|done].
      * eapply IH; [|exact Hobjs]. intros b h' ? ? Hb. apply HP. by right.
    + apply IH. intros b h' ? ? Hb. apply HP. by right.
Qed.

End TerraformParserProperties.

(** ** Identifiers, provider names, configurations and determinism *)

Section ParserClaims.

Import model parser.

Variable Unmarshal : string -> TerraformState + error.
Variable ParseHCL : string -> string -> File * Diagnostics.

Implicit Types (ctx : context.Context) (file : TerraformFile) (w : World).
Implicit Types (state : TerraformState) (block : Block) (blocks : list Block).


Lemma StateParser_Parse_records ctx file w state objects err w' :
  Unmarshal (file_Content file) = inl state ->
  StateParser_Parse Unmarshal ctx file w = (Some (objects, err), w') ->
  Forall2 (fun obj '(resource, i, instance) =>
             exists a b, obj = object_of_instance file resource i instance a b)
          objects (instances_of state).
Proof.
  intros Hdec Hparse. rewrite (StateParser_Parse_decoded _ _ _ _ _ Hdec) in Hparse.
  simplify_eq. apply stamp_resources_Forall2.
Qed.

(** Blocks that fit the schema give one record each, in order. *)
Lemma stamp_blocks_schema_ok fileID blocks :
  Forall schema_ok blocks ->
  forall clk t0, exists objects,
    stamp_blocks fileID blocks clk t0 = Some objects
    /\ Forall2 (fun obj block =>
                  exists h a b, block_header block = Some (Some h)
                                /\ obj = object_of_header fileID block h a b)
               objects blocks.
Proof.
  induction 1 as [|block blocks Hb _ IH]; intros clk t0; simpl.
  - eexists. split; [done|constructor].
  - destruct (schema_ok_header block Hb) as (h & Hh). rewrite Hh.
    destruct (IH clk (S (S t0))) as (objects & -> & Hall). simpl.
    eexists. split; [done|]. constructor; [|done].
    by exists h, (clk t0), (clk (S t0)).
Qed.

(** [C6], as the code has it.  The identifier of a record is
    [generateObjectID] of four inputs and of nothing else.  For a snapshot
    record: the item's id, the resource type, the resource name and the
    index of the instance in its resource block.  For a declarative-config
    record: the item's id, the record's kind tag, its name and the index 0.
    So records of one parser that agree on its four inputs have the same
    identifier. *)
Theorem generateObjectID_inputs ctx file w :
  (forall state objects err w',
      Unmarshal (file_Content file) = inl state ->
      StateParser_Parse Unmarshal ctx file w = (Some (objects, err), w') ->
      Forall2 (fun obj '(resource, i, instance) =>
                 obj_ID obj
                 = generateObjectID (file_ID file) (res_Type resource) (res_Name resource) i
                 /\ obj_FileID obj = file_ID file
                 /\ obj_ResourceType obj = res_Type resource
                 /\ obj_Name obj = res_Name resource)
              objects (instances_of state))
  /\ (forall objects err,
        (TerraformParser_Parse ParseHCL ctx file w).1 = Some (objects, err) ->
        Forall (fun obj =>
                  obj_ID obj = generateObjectID (file_ID file) (obj_Type obj) (obj_Name obj) 0
                  /\ obj_FileID obj = file_ID file)
               objects).
Proof.
  split.
  - intros state objects err w' Hdec Hparse.
    eapply Forall2_impl; [by eapply StateParser_Parse_records|].
    by intros obj [[resource i] instance] (a & b & ->).
  - intros objects err. rewrite TerraformParser_Parse_eq.
    destruct (ParseHCL (file_Content file) (file_SourcePath file)) as [hclFile diags].
    destruct (HasErrors diags); [intros [= <- <-]; constructor|].
    destruct (PartialContent hclFile) as [content diags'].
    destruct (HasErrors diags'); [intros [= <- <-]; constructor|].
    destruct (stamp_blocks (file_ID file) (Blocks content) (clock w) (ticks w))
      as [objs|] eqn:Hobjs; [|done].
    intros [= <- <-]. eapply stamp_blocks_Forall; [|exact Hobjs].
    by intros block [[[objectType name] resourceType] address] a b _ _.
Qed.

(** [C7], as the code has it.  The provider name on a snapshot record is
    [extractProviderName] of its resource's provider string; when that
    string has a ['/'], it is the part after the last ['/'] cut at the first
    double quote or closing bracket, or the whole string when this part is
    empty. *)
Theorem StateParser_provider_name ctx file w state objects err w' :
  Unmarshal (file_Content file) = inl state ->
  StateParser_Parse Unmarshal ctx file w = (Some (objects, err), w') ->
  Forall2 (fun obj '(resource, i, instance) =>
             obj_ProviderName obj = extractProviderName (res_Provider resource)
             /\ (string_exists is_slash (res_Provider resource) = true ->
                 obj_ProviderName obj = provider_name_after_slash (res_Provider resource)))
          objects (instances_of state).
Proof.
  intros Hdec Hparse.
  eapply Forall2_impl; [by eapply StateParser_Parse_records|].
  intros obj [[resource i] instance] (a & b & ->). split; [done|].
  apply extractProviderName_after_slash.
Qed.

(** [C8], as the code has it.  When the file decodes and its blocks fit the
    schema, parsing gives exactly one record per block, in order, whatever
    the attributes are.  The configuration of a record holds every attribute
    of its block, each as the rendering of its expression, when listing the
    attributes reports no error, and is empty when it does; it is never a
    mapping that keeps some attributes of the block and leaves one out. *)
Theorem TerraformParser_configuration ctx file w hclFile diags blocks diags' :
  ParseHCL (file_Content file) (file_SourcePath file) = (hclFile, diags) ->
  HasErrors diags = false ->
  PartialContent hclFile = ({| Blocks := blocks |}, diags') ->
  HasErrors diags' = false ->
  Forall schema_ok blocks ->
  exists objects,
    (TerraformParser_Parse ParseHCL ctx file w).1 = Some (objects, None)
    /\ Forall2 (fun obj block =>
                  let attrs := (JustAttributes (blk_Body block)).1 in
                  obj_Configuration obj
                  = (if HasErrors (JustAttributes (blk_Body block)).2 then ∅
                     else rendered <$> attrs)
                  /\ forall good1 good2 bad,
                       is_Some (attrs !! bad) ->
                       ~ lenient (obj_Configuration obj) good1 good2 bad)
               objects blocks.
Proof.
  intros Hfile Hd Hcontent Hd' Hblocks.
  destruct (stamp_blocks_schema_ok (file_ID file) blocks Hblocks (clock w) (ticks w))
    as (objects & Hobjs & Hall).
  exists objects. split.
  - rewrite TerraformParser_Parse_eq, Hfile, Hd, Hcontent, Hd'. simpl.
    by rewrite Hobjs.
  - eapply Forall2_impl; [exact Hall|].
    intros obj block ([[[objectType name] resourceType] address] & a & b & _ & ->).
    simpl. rewrite block_config_eq. split; [done|].
    intros good1 good2 bad Hbad (Hg1 & _ & Hnone).
    destruct (HasErrors (JustAttributes (blk_Body block)).2).
    + rewrite lookup_empty in Hg1. by destruct Hg1.
    + rewrite lookup_fmap in Hnone. destruct Hbad as [x Hx].
      rewrite Hx in Hnone. discriminate.
Qed.





End ParserClaims.

(** ** Concrete runs *)

Section Runs.

Import model parser testdata.

(** A registry with two parsers that accept everything: the first one
    registered answers. *)
Lemma ParserRegistry_Parse_first_match_witness :
  ParserRegistry_Parse
    (Register (Register NewParserRegistry (constant_parser []))
              (constant_parser [object_of_block "f" "resource" "x" EmptyString EmptyString ∅ 0%Z 0%Z]))
    context.Background (tfstate "f") midnight
  = Parse (constant_parser []) context.Background (tfstate "f")
      (logged (dispatch_calls 0 (tfstate "f")) midnight).
Proof.
  exact (proj1 (ParserRegistry_Parse_first_match
                  [] (constant_parser []) []
                  (constant_parser [object_of_block "f" "resource" "x" EmptyString EmptyString ∅ 0%Z 0%Z]) []
                  context.Background (tfstate "f") midnight
                  (List.Forall_nil _) eq_refl eq_refl)).
Defined.

(** The program's registry on a file of a type neither parser knows. *)
Lemma ParserRegistry_Parse_unmatched_witness :
  ParserRegistry_Parse (registry three_instances [example_block no_errors])
    context.Background readme midnight
  = (Some ([], None), logged [CallCanParse 0 "md"; CallCanParse 1 "md"] midnight).
Proof.
  apply (ParserRegistry_Parse_unmatched
           (registry three_instances [example_block no_errors])
           context.Background readme midnight).
  repeat constructor.
Defined.

(** [C6] refuted as stated.  In the snapshot [colliding], every resource
    block has one instance, of index 0.  The first two records agree on
    the four inputs (item, kind "resource", name "x", index 0) and have
    different identifiers, because the resource types differ.  The last two
    differ in their names and have the same identifier, because both inputs
    format to "f:a:b:c:0". *)
Lemma generateObjectID_counterexample :
  match (StateParser_Parse (decoder colliding) context.Background (tfstate "f") midnight).1 with
  | Some ([o1; o2; o3; o4], None) =>
      map (fun e => e.1.2) (instances_of colliding) = [0; 0; 0; 0]
      /\ (claimed_inputs o1 0 = claimed_inputs o2 0 /\ obj_ID o1 <> obj_ID o2)
      /\ (claimed_inputs o3 0 <> claimed_inputs o4 0 /\ obj_ID o3 = obj_ID o4)
  | _ => False
  end.
Proof.
  vm_compute. split; [reflexivity|]. split; (split; [|]); try reflexivity; discriminate.
Qed.

Lemma generateObjectID_inputs_witness :
  Forall2 (fun obj '(resource, i, instance) =>
             obj_ID obj = generateObjectID "f" (res_Type resource) (res_Name resource) i
             /\ obj_FileID obj = "f"
             /\ obj_ResourceType obj = res_Type resource
             /\ obj_Name obj = res_Name resource)
          (stamp_resources (tfstate "f") (st_Resources three_instances) Z.of_nat 0)
          (instances_of three_instances)
  /\ Forall (fun obj =>
               obj_ID obj = generateObjectID "f" (obj_Type obj) (obj_Name obj) 0
               /\ obj_FileID obj = "f")
            [object_of_header "f" (example_block no_errors)
               ("resource", "example", "aws_instance", "aws_instance.example") 0%Z 1%Z].
Proof.
  destruct (generateObjectID_inputs (decoder three_instances)
              (hcl [example_block no_errors]) context.Background (tfstate "f") midnight)
    as [Hstate _].
  destruct (generateObjectID_inputs (decoder three_instances)
              (hcl [example_block no_errors]) context.Background (tf "f") midnight)
    as [_ Hconfig].
  split.
  - exact (Hstate three_instances _ None _ eq_refl eq_refl).
  - exact (Hconfig _ None eq_refl).
Defined.

(** [C7] refuted as stated.  In the snapshot [three_instances] the first
    resource block (two instances) has the provider string Terraform writes,
    the second (one instance) has the provider string "aws".  The records
    carry "aws", "aws" and "s"; the substrings after the last ['/'] are
    [aws_tail], [aws_tail] and "aws". *)
Lemma StateParser_provider_name_counterexample :
  match (StateParser_Parse (decoder three_instances) context.Background (tfstate "f") midnight).1 with
  | Some (objects, None) =>
      map obj_ProviderName objects = ["aws"; "aws"; "s"]
      /\ map (fun e => substring_after_last_slash (res_Provider e.1.1))
             (instances_of three_instances) = [aws_tail; aws_tail; "aws"]
      /\ Forall2 (fun obj '(resource, i, instance) =>
                    obj_ProviderName obj <> substring_after_last_slash (res_Provider resource))
                 objects (instances_of three_instances)
  | _ => False
  end.
Proof.
  vm_compute. split; [reflexivity|]. split; [reflexivity|].
  repeat constructor; discriminate.
Qed.

Lemma StateParser_provider_name_witness :
  Forall2 (fun obj '(resource, i, instance) =>
             obj_ProviderName obj = extractProviderName (res_Provider resource)
             /\ (string_exists is_slash (res_Provider resource) = true ->
                 obj_ProviderName obj = provider_name_after_slash (res_Provider resource)))
          (stamp_resources (tfstate "f") (st_Resources three_instances) Z.of_nat 0)
          (instances_of three_instances).
Proof.
  exact (StateParser_provider_name (decoder three_instances) context.Background
           (tfstate "f") midnight three_instances _ None _ eq_refl eq_refl).
Defined.

(** [C8] refuted as stated.  The block [example_block] has the attributes
    "ami", "instance_type" and "bad".  When listing the attributes reports
    no error the record keeps all three, "bad" included; when it reports one
    the record keeps none.  Either way the configuration is not one that
    holds "ami" and "instance_type" and leaves "bad" out. *)
Lemma TerraformParser_configuration_counterexample :
  match (TerraformParser_Parse (hcl [example_block no_errors])
           context.Background (tf "f") midnight).1,
        (TerraformParser_Parse (hcl [example_block some_errors])
           context.Background (tf "f") midnight).1 with
  | Some ([obj], None), Some ([obj'], None) =>
      (obj_Configuration obj !! "bad" = Some (Str "undefined(1)")
       /\ ~ lenient (obj_Configuration obj) "ami" "instance_type" "bad")
      /\ (obj_Configuration obj' = ∅
          /\ ~ lenient (obj_Configuration obj') "ami" "instance_type" "bad")
  | _, _ => False
  end.
Proof.
  vm_compute. split; (split; [reflexivity|]).
  - intros (_ & _ & H). discriminate H.
  - intros ([x H] & _). discriminate H.
Qed.

Lemma TerraformParser_configuration_witness :
  exists objects,
    (TerraformParser_Parse (hcl [example_block no_errors; example_block some_errors])
       context.Background (tf "f") midnight).1 = Some (objects, None)
    /\ Forall2 (fun obj block =>
                  let attrs := (JustAttributes (blk_Body block)).1 in
                  obj_Configuration obj
                  = (if HasErrors (JustAttributes (blk_Body block)).2 then ∅
                     else rendered <$> attrs)
                  /\ forall good1 good2 bad,
                       is_Some (attrs !! bad) ->
                       ~ lenient (obj_Configuration obj) good1 good2 bad)
               objects [example_block no_errors; example_block some_errors].
Proof.
  apply (TerraformParser_configuration
           (hcl [example_block no_errors; example_block some_errors])
           context.Background (tf "f") midnight
           {| PartialContent :=
                ({| Blocks := [example_block no_errors; example_block some_errors] |},
                 no_errors) |}
           no_errors [example_block no_errors; example_block some_errors] no_errors);
    try reflexivity.
  repeat constructor; left; (split; [|reflexivity]); set_solver.
Defined.



End Runs.

(** * Further properties *)

(** ** The queue among several goroutines *)

Section QueueRuns.

Import queue queue_runs.

Context {T : Type}.

Implicit Types (q : InMemoryQueue T) (s : system T) (ev : event T) (evs : list (event T)).
Implicit Types (ctx : context.Context) (t me : tid) (c : consumer T) (cs : list (consumer T)).

Lemma wake_lookup_notin woken cs t :
  t ∉ woken -> wake woken cs !! t = cs !! t.
Proof.
  induction woken as [|w woken IH]; intros Ht; simpl; [done|].
  apply not_elem_of_cons in Ht as [Hne Ht]. unfold wake1.
  destruct (wake woken cs !! w); [|by apply IH].
  rewrite list_lookup_insert_ne by done. by apply IH.
Qed.

Lemma wake_lookup_in woken cs t :
  t ∈ woken ->
  wake woken cs !! t = (fun c => {| c_ctx := c_ctx c; c_pc := Running |}) <$> cs !! t.
Proof.
  induction woken as [|w woken IH]; intros Hin; [by apply elem_of_nil in Hin|].
  simpl. unfold wake1.
  destruct (decide (w = t)) as [->|Hne].
  - destruct (wake woken cs !! t) as [cw|] eqn:Hl.
    + rewrite list_lookup_insert_eq by (by eapply lookup_lt_Some).
      destruct (wake_lookup woken cs t) as [Heq | (c & Hc & Heq)].
      * rewrite <- Heq, Hl. done.
      * rewrite Hc. rewrite Hl in Heq. by simplify_eq.
    + destruct (wake_lookup woken cs t) as [Heq | (c & Hc & Heq)].
      * rewrite <- Heq, Hl. done.
      * congruence.
  - apply elem_of_cons in Hin as [->|Hin]; [done|].
    destruct (wake woken cs !! w); [|by apply IH].
    rewrite list_lookup_insert_ne by done. by apply IH.
Qed.

Lemma step_conserves s s' ev :
  step s ev = Some s' ->
  items (sys_queue s) ++ enqueued ev = delivered s ev ++ items (sys_queue s').
Proof.
  intros Hstep. unfold delivered.
  destruct ev as [ctx item| |t e|t]; [| | |rewrite Hstep]; simpl in *.
  - simplify_eq. simpl. by rewrite Enqueue_items.
  - simplify_eq. simpl. by rewrite app_nil_r.
  - destruct (sys_consumers s !! t); simplify_eq. simpl. by rewrite app_nil_r.
  - destruct (sys_consumers s !! t) as [[ctx [| |r]]|] eqn:Hc; try discriminate.
    assert (t < length (sys_consumers s)) as Hlt by (by eapply lookup_lt_Some).
    unfold Dequeue in Hstep.
    destruct (items (sys_queue s)) as [|item rest] eqn:Hitems.
    + destruct (context.Err ctx); simplify_eq; unfold pc_of; simpl;
        rewrite list_lookup_insert_eq by done; simpl; by rewrite ?Hitems.
    + simplify_eq. unfold pc_of. simpl.
      rewrite list_lookup_insert_eq by done. simpl. by rewrite app_nil_r.
Qed.

(** [X1] Nothing is lost, doubled or reordered, with any number of
    consumers and producers: along every run, the buffer at the start
    followed by the items enqueued is the list of the items handed out to
    consumers, in the order they were handed out, followed by the buffer at
    the end. *)
Theorem queue_conservation evs s s' :
  run s evs = Some s' ->
  items (sys_queue s) ++ flat_map enqueued evs
  = deliveries s evs ++ items (sys_queue s').
Proof.
  revert s. induction evs as [|ev evs IH]; intros s Hrun; simpl in *.
  - simplify_eq. by rewrite app_nil_r.
  - destruct (step s ev) as [s1|] eqn:Hstep; [|discriminate].
    rewrite app_assoc, (step_conserves _ _ _ Hstep), <- !app_assoc.
    by rewrite (IH _ Hrun).
Qed.

Lemma well_formed_step s s' ev :
  step s ev = Some s' -> well_formed s -> well_formed s'.
Proof.
  intros Hstep [Hnd Hwf]. unfold well_formed, pc_of in *.
  destruct ev as [ctx item| |t e|t]; simpl in *.
  - (* Enqueue *)
    simplify_eq. unfold Enqueue.
    destruct (cond (sys_queue s)) as [|t0 c0] eqn:Hcond; simpl.
    + split; [constructor|]. intros t. rewrite <- Hwf. done.
    + apply NoDup_cons in Hnd as [Hnotin Hnd]. split; [done|]. intros t.
      change (wake1 t0 (sys_consumers s)) with (wake [t0] (sys_consumers s)).
      destruct (decide (t = t0)) as [->|Hne].
      * rewrite wake_lookup_in by (by left).
        split; [done|]. destruct (sys_consumers s !! t0); simpl; discriminate.
      * rewrite wake_lookup_notin by (by intros ?%list_elem_of_singleton).
        rewrite <- Hwf. rewrite elem_of_cons.
        split; [by right | by intros [?|?]].
  - (* Close *)
    simplify_eq. simpl. split; [constructor|]. intros t.
    split; [by intros ?%elem_of_nil|]. intros Hw.
    destruct (decide (t ∈ cond (sys_queue s))) as [Hin|Hnotin].
    + rewrite wake_lookup_in in Hw by done.
      destruct (sys_consumers s !! t); simpl in Hw; discriminate.
    + rewrite wake_lookup_notin in Hw by done. by apply Hwf in Hw.
  - (* Cancel *)
    destruct (sys_consumers s !! t) as [c|] eqn:Hc; simplify_eq. simpl.
    split; [done|]. intros t'. rewrite Hwf.
    destruct (decide (t = t')) as [->|Hne].
    + rewrite list_lookup_insert_eq by (by eapply lookup_lt_Some).
      rewrite Hc. done.
    + by rewrite list_lookup_insert_ne.
  - (* a consumer runs *)
    destruct (sys_consumers s !! t) as [[ctx [| |r]]|] eqn:Hc; try discriminate.
    assert (t < length (sys_consumers s)) as Hlt by (by eapply lookup_lt_Some).
    assert (t ∉ cond (sys_queue s)) as Hnotin.
    { rewrite Hwf, Hc. simpl. congruence. }
    unfold Dequeue in Hstep.
    destruct (items (sys_queue s)) as [|item rest];
      [destruct (context.Err ctx)|]; simplify_eq; simpl.
    + split; [done|]. intros t'. rewrite Hwf.
      destruct (decide (t = t')) as [->|Hne].
      * rewrite list_lookup_insert_eq, Hc by done. simpl. by split.
      * by rewrite list_lookup_insert_ne.
    + split.
      * apply NoDup_app. split; [done|]. split; [|apply NoDup_singleton].
        intros x Hx ->%list_elem_of_singleton. done.
      * intros t'. rewrite elem_of_app, list_elem_of_singleton, Hwf.
        destruct (decide (t = t')) as [->|Hne].
        -- rewrite list_lookup_insert_eq by done. simpl. split; [done | by right].
        -- rewrite list_lookup_insert_ne by done.
           split; [by intros [?|?] | by left].
    + split; [done|]. intros t'. rewrite Hwf.
      destruct (decide (t = t')) as [->|Hne].
      * rewrite list_lookup_insert_eq, Hc by done. simpl. by split.
      * by rewrite list_lookup_insert_ne.
Qed.

(** [X2] The notify list of the condition variable is kept exact: from a
    state in which it holds the parked consumers, each once, every run leads
    to such a state.  No parked consumer is ever missing from the list, and
    no consumer is on it that is not parked. *)
Theorem well_formed_run evs s s' :
  well_formed s -> run s evs = Some s' -> well_formed s'.
Proof.
  revert s. induction evs as [|ev evs IH]; intros s Hwf Hrun; simpl in *.
  - by simplify_eq.
  - destruct (step s ev) as [s1|] eqn:Hstep; [|discriminate].
    eauto using well_formed_step.
Qed.


(** [X4] [Close] is a wake-up and nothing else.  It leaves the buffer as it
    is, empties the notify list, makes every parked consumer runnable and
    touches no other consumer nor any context.  The queue is not closed in
    any lasting sense: a woken consumer with a live context that finds the
    buffer empty parks again. *)
Theorem Close_only_wakes s :
  well_formed s ->
  exists s',
    step s EvClose = Some s'
    /\ items (sys_queue s') = items (sys_queue s)
    /\ cond (sys_queue s') = []
    /\ (forall t c, sys_consumers s !! t = Some c ->
          (c_pc c = Waiting ->
           sys_consumers s' !! t = Some {| c_ctx := c_ctx c; c_pc := Running |})
          /\ (c_pc c <> Waiting -> sys_consumers s' !! t = Some c))
    /\ (forall t, sys_consumers s !! t
                  = Some {| c_ctx := context.Background; c_pc := Waiting |} ->
                  items (sys_queue s) = [] ->
                  exists s'', step s' (EvRun t) = Some s''
                    /\ pc_of s'' t = Some Waiting
                    /\ items (sys_queue s'') = []
                    /\ cond (sys_queue s'') = [t]).
Proof.
  intros [_ Hwf]. eexists. split; [reflexivity|]. simpl.
  split; [done|]. split; [done|].
  assert (forall t c, sys_consumers s !! t = Some c ->
            (c_pc c = Waiting ->
             wake (cond (sys_queue s)) (sys_consumers s) !! t
             = Some {| c_ctx := c_ctx c; c_pc := Running |})
            /\ (c_pc c <> Waiting ->
                wake (cond (sys_queue s)) (sys_consumers s) !! t = Some c)) as Hwake.
  { intros t c Hc. split; intros Hp.
    - rewrite wake_lookup_in; [by rewrite Hc|].
      apply Hwf. unfold pc_of. by rewrite Hc, <- Hp.
    - rewrite wake_lookup_notin; [done|].
      rewrite Hwf. unfold pc_of. rewrite Hc. simpl. congruence. }
  split; [exact Hwake|].
  intros t Hc Hitems. destruct (Hwake _ _ Hc) as [Hw _].
  rewrite (Hw eq_refl). simpl. unfold Dequeue. simpl. rewrite Hitems. simpl.
  eexists. split; [reflexivity|]. unfold pc_of. simpl.
  rewrite list_lookup_insert_eq; [done|].
  eapply lookup_lt_Some. by apply Hw.
Qed.

Lemma cancelled_running_step s s' t e ev :
  schedules t ev = false ->
  step s ev = Some s' ->
  sys_consumers s !! t = Some {| c_ctx := Some e; c_pc := Running |} ->
  sys_consumers s' !! t = Some {| c_ctx := Some e; c_pc := Running |}.
Proof.
  intros Hev Hstep Hc.
  assert (forall woken, wake woken (sys_consumers s) !! t
                        = Some {| c_ctx := Some e; c_pc := Running |}) as Hwake.
  { intros woken.
    destruct (wake_lookup woken (sys_consumers s) t) as [-> | (c & Hc' & ->)];
      [done|]. rewrite Hc in Hc'. by simplify_eq. }
  destruct ev as [ctx item| |t' e'|t']; simpl in *.
  - simplify_eq. apply Hwake.
  - simplify_eq. apply Hwake.
  - destruct (sys_consumers s !! t') as [c|] eqn:Hc'; simplify_eq. simpl.
    destruct (decide (t' = t)) as [->|Hne].
    + rewrite list_lookup_insert_eq by (by eapply lookup_lt_Some).
      rewrite Hc in Hc'. by simplify_eq.
    + by rewrite list_lookup_insert_ne.
  - apply bool_decide_eq_false in Hev.
    destruct (sys_consumers s !! t') as [[ctx' [| |r]]|]; try discriminate.
    destruct (Dequeue t' ctx' (sys_queue s)) as [q o]. simplify_eq. simpl.
    by rewrite list_lookup_insert_ne.
Qed.

Lemma cancelled_running_run evs s s' t e :
  existsb (schedules t) evs = false ->
  run s evs = Some s' ->
  sys_consumers s !! t = Some {| c_ctx := Some e; c_pc := Running |} ->
  sys_consumers s' !! t = Some {| c_ctx := Some e; c_pc := Running |}.
Proof.
  revert s. induction evs as [|ev evs IH]; intros s Hevs Hrun Hc; simpl in *.
  - by simplify_eq.
  - apply orb_false_iff in Hevs as [Hev Hevs].
    destruct (step s ev) as [s1|] eqn:Hstep; [|discriminate].
    eauto using cancelled_running_step.
Qed.

(** [X6] What [Close] is for.  Once [Close] has been called, a consumer that
    was parked with a cancelled context returns the next time it is
    scheduled, whatever the others do in between: the cancellation when the
    buffer is empty at that moment, the oldest buffered item when an
    [Enqueue] came first.  It does not park again. *)
Theorem Close_delivers_cancellation s t e evs s1 :
  well_formed s ->
  parked_cancelled s t e ->
  run s (EvClose :: evs) = Some s1 ->
  existsb (schedules t) evs = false ->
  exists s2,
    step s1 (EvRun t) = Some s2
    /\ pc_of s2 t = Some (Returned (match items (sys_queue s1) with
                                     | [] => inr e
                                     | item :: _ => inl item
                                     end)).
Proof.
  intros [_ Hwf] Hc Hrun Hevs. unfold parked_cancelled in Hc.
  assert (t ∈ cond (sys_queue s)) as Hin.
  { apply Hwf. unfold pc_of. by rewrite Hc. }
  cbn [run step] in Hrun.
  assert (sys_consumers s1 !! t = Some {| c_ctx := Some e; c_pc := Running |}) as Hc1.
  { eapply cancelled_running_run; [exact Hevs|exact Hrun|].
    simpl. by rewrite wake_lookup_in, Hc. }
  assert (t < length (sys_consumers s1)) as Hlt by (by eapply lookup_lt_Some).
  simpl. rewrite Hc1. unfold Dequeue. simpl.
  destruct (items (sys_queue s1)) as [|item rest];
    (eexists; split; [reflexivity|]); unfold pc_of; simpl;
    by rewrite list_lookup_insert_eq.
Qed.

(** [X7] A cancelled context does not stop a consumer from draining the
    queue: [Dequeue] looks at the context only when the buffer is empty.
    With a cancelled context, calls in a row return the buffered items in
    order, then the cancellation every time, and never park. *)
Theorem Dequeue_cancelled_drains (xs : list T) k me e waiters :
  dequeue_n (length xs + k) me (Some e) {| items := xs; cond := waiters |}
  = Some ((inl <$> xs) ++ replicate k (inr e), {| items := []; cond := waiters |}).
Proof.
  induction xs as [|x xs IH]; simpl.
  - induction k as [|k IHk]; simpl; [done|]. by rewrite IHk.
  - by rewrite IH.
Qed.

(** [X22] What [Size] reports is the balance of the run: the size at the
    start plus the number of [Enqueue] calls is the number of items handed
    out plus the size at the end.  [Close] and cancellations do not change
    it. *)
Theorem Size_accounting evs s s' :
  run s evs = Some s' ->
  Size (sys_queue s) + length (flat_map enqueued evs)
  = length (deliveries s evs) + Size (sys_queue s').
Proof.
  unfold Size. revert s. induction evs as [|ev evs IH]; intros s Hrun; simpl in *.
  - by simplify_eq.
  - destruct (step s ev) as [s1|] eqn:Hstep; [|discriminate].
    pose proof (f_equal length (step_conserves _ _ _ Hstep)) as Hlen.
    pose proof (IH _ Hrun) as Hrest.
    rewrite !length_app in *. lia.
Qed.

End QueueRuns.

(** ** Registering and routing *)

Section RegistryRouting.

Import model parser descriptions.

Implicit Types (r : ParserRegistry) (p : Parser) (ps : list Parser).
Implicit Types (ctx : context.Context) (file : TerraformFile) (w : World).

Lemma Parse_from_app_accepting i ps l ctx file w :
  Exists (fun p => CanParse p (file_FileType file) = true) ps ->
  Parse_from i (ps ++ l) ctx file w = Parse_from i ps ctx file w.
Proof.
  intros Hex. revert i w. induction ps as [|p ps IH]; intros i w.
  - by apply Exists_nil in Hex.
  - simpl. unfold bind at 1 3. rewrite record_call_logged.
    destruct (CanParse p (file_FileType file)) eqn:Hp; [done|].
    apply IH. apply Exists_cons in Hex as [Hex|Hex]; [congruence|done].
Qed.

(** [X8] Registering one more parser never takes a file away from a parser
    that already handles it: when some registered parser accepts the file
    type, dispatch on the extended registry is dispatch on the old one, and
    the new parser is not even asked.  When none accepts, the new parser is
    asked last and handles the file if it accepts. *)
Theorem Register_keeps_dispatch r p ctx file w :
  (Exists (fun q => CanParse q (file_FileType file) = true) (parsers r) ->
   ParserRegistry_Parse (Register r p) ctx file w = ParserRegistry_Parse r ctx file w)
  /\ (Forall (rejects (file_FileType file)) (parsers r) ->
      ParserRegistry_Parse (Register r p) ctx file w
      = if CanParse p (file_FileType file)
        then Parse p ctx file (logged (dispatch_calls (length (parsers r)) file) w)
        else (Some ([], None),
              logged (asked 0 (S (length (parsers r))) (file_FileType file)) w)).
Proof.
  unfold ParserRegistry_Parse, Register. simpl. split.
  - apply Parse_from_app_accepting.
  - intros Hr. rewrite Parse_from_rejecting by done. simpl.
    unfold bind at 1. rewrite record_call_logged, logged_logged.
    unfold dispatch_calls, asked. rewrite seq_S, fmap_app. simpl.
    destruct (CanParse p (file_FileType file)).
    + unfold bind. rewrite record_call_logged, logged_logged.
      by rewrite <- app_assoc.
    + reflexivity.
Qed.

Lemma Parse_from_two p1 p2 ctx file w :
  Parse_from 0 [p1; p2] ctx file w
  = if CanParse p1 (file_FileType file)
    then Parse p1 ctx file
           (logged [CallCanParse 0 (file_FileType file); CallParse 0 file] w)
    else if CanParse p2 (file_FileType file)
         then Parse p2 ctx file
                (logged [CallCanParse 0 (file_FileType file);
                         CallCanParse 1 (file_FileType file); CallParse 1 file] w)
         else (Some ([], None),
               logged [CallCanParse 0 (file_FileType file);
                       CallCanParse 1 (file_FileType file)] w).
Proof.
  simpl. unfold bind at 1. rewrite record_call_logged.
  destruct (CanParse p1 (file_FileType file)).
  - unfold bind. by rewrite record_call_logged, logged_logged.
  - unfold bind at 1. rewrite record_call_logged, logged_logged.
    destruct (CanParse p2 (file_FileType file)); [|done].
    unfold bind. by rewrite record_call_logged, logged_logged.
Qed.

Lemma StateParser_Parse_logged Unmarshal cs ctx file w :
  (StateParser_Parse Unmarshal ctx file (logged cs w)).1
  = (StateParser_Parse Unmarshal ctx file w).1.
Proof.
  destruct (Unmarshal (file_Content file)) as [state|err] eqn:Hdec.
  - by rewrite !(StateParser_Parse_decoded _ _ _ _ _ Hdec).
  - by rewrite !(StateParser_Parse_failed _ _ _ _ _ Hdec).
Qed.

Lemma TerraformParser_Parse_logged ParseHCL cs ctx file w :
  (TerraformParser_Parse ParseHCL ctx file (logged cs w)).1
  = (TerraformParser_Parse ParseHCL ctx file w).1.
Proof. by rewrite !TerraformParser_Parse_eq. Qed.

(** What the registry of [runIndexer] returns is what one of its two
    parsers returns, or nothing. *)
Lemma main_registry_result Unmarshal ParseHCL ctx file w :
  (ParserRegistry_Parse (main_registry Unmarshal ParseHCL) ctx file w).1
  = (StateParser_Parse Unmarshal ctx file w).1
  \/ (ParserRegistry_Parse (main_registry Unmarshal ParseHCL) ctx file w).1
     = (TerraformParser_Parse ParseHCL ctx file w).1
  \/ (ParserRegistry_Parse (main_registry Unmarshal ParseHCL) ctx file w).1
     = Some ([], None).
Proof.
  unfold ParserRegistry_Parse.
  change (parsers (main_registry Unmarshal ParseHCL))
    with [StateParser Unmarshal; TerraformParser ParseHCL].
  rewrite Parse_from_two.
  change (Parse (StateParser Unmarshal)) with (StateParser_Parse Unmarshal).
  change (Parse (TerraformParser ParseHCL)) with (TerraformParser_Parse ParseHCL).
  destruct (CanParse (StateParser Unmarshal) (file_FileType file)).
  - left. apply StateParser_Parse_logged.
  - destruct (CanParse (TerraformParser ParseHCL) (file_FileType file)).
    + right. left. apply TerraformParser_Parse_logged.
    + by right; right.
Qed.

(** [X9] Routing in the program.  The registry of [runIndexer] sends a
    "tfstate" file to the snapshot parser, a "tf" file to the
    declarative-config parser, and returns no record and no error for every
    other file type.  The two parsers never accept the same file, so
    registering them in the other order returns the same. *)
Theorem main_registry_routes Unmarshal ParseHCL ctx file w :
  (ParserRegistry_Parse (main_registry Unmarshal ParseHCL) ctx file w).1
  = (if decide (file_FileType file = FileTypeState)
     then (StateParser_Parse Unmarshal ctx file w).1
     else if decide (file_FileType file = FileTypeTerraform)
          then (TerraformParser_Parse ParseHCL ctx file w).1
          else Some ([], None))
  /\ (ParserRegistry_Parse (swapped_registry Unmarshal ParseHCL) ctx file w).1
     = (ParserRegistry_Parse (main_registry Unmarshal ParseHCL) ctx file w).1.
Proof.
  unfold ParserRegistry_Parse.
  change (parsers (main_registry Unmarshal ParseHCL))
    with [StateParser Unmarshal; TerraformParser ParseHCL].
  change (parsers (swapped_registry Unmarshal ParseHCL))
    with [TerraformParser ParseHCL; StateParser Unmarshal].
  rewrite !Parse_from_two.
  change (CanParse (StateParser Unmarshal) (file_FileType file))
    with (bool_decide (file_FileType file = FileTypeState)).
  change (CanParse (TerraformParser ParseHCL) (file_FileType file))
    with (bool_decide (file_FileType file = FileTypeTerraform)).
  change (Parse (StateParser Unmarshal)) with (StateParser_Parse Unmarshal).
  change (Parse (TerraformParser ParseHCL)) with (TerraformParser_Parse ParseHCL).
  destruct (decide (file_FileType file = FileTypeState)) as [Hs|Hs].
  - assert (file_FileType file <> FileTypeTerraform) as Ht by (by rewrite Hs).
    rewrite (bool_decide_eq_true_2 _ Hs), (bool_decide_eq_false_2 _ Ht).
    by rewrite !StateParser_Parse_logged.
  - rewrite (bool_decide_eq_false_2 _ Hs).
    destruct (decide (file_FileType file = FileTypeTerraform)) as [Ht|Ht].
    + rewrite (bool_decide_eq_true_2 _ Ht).
      by rewrite !TerraformParser_Parse_logged.
    + by rewrite (bool_decide_eq_false_2 _ Ht).
Qed.

End RegistryRouting.

(** ** Identifiers as strings *)

Section Identifiers.

Import model parser collector descriptions.

Local Open Scope Z_scope.

Lemma round_length st kw : length (sha256.round st kw) = length st.
Proof.
  unfold sha256.round.
  do 8 (destruct st as [|? st]; [reflexivity|]). by destruct st.
Qed.

Lemma fold_round_length l st : length (fold_left sha256.round l st) = length st.
Proof.
  revert st. induction l as [|kw l IH]; intros st; simpl; [done|].
  by rewrite IH, round_length.
Qed.

Lemma block_length h blk : length (sha256.block h blk) = length h.
Proof.
  unfold sha256.block.
  rewrite length_map, length_combine, fold_round_length. apply Nat.min_id.
Qed.

Lemma fold_block_length l h : length (fold_left sha256.block l h) = length h.
Proof.
  revert h. induction l as [|blk l IH]; intros h; simpl; [done|].
  by rewrite IH, block_length.
Qed.

Lemma be_bytes_length n x : length (sha256.be_bytes n x) = n.
Proof. induction n as [|n IH]; simpl; [done|]. by rewrite IH. Qed.

Lemma be_bytes_range n x : Forall (fun b => 0 <= b < 256) (sha256.be_bytes n x).
Proof.
  induction n as [|n IH]; simpl; constructor; [|done].
  change 255 with (Z.ones 8). rewrite Z.land_ones by lia.
  apply Z.mod_pos_bound. lia.
Qed.

(** The digest has 32 bytes. *)
Lemma Sum256_length msg : length (sha256.Sum256 msg) = 32%nat.
Proof.
  unfold sha256.Sum256.
  generalize (sha256.chunks (length (sha256.pad msg) / 64) 64 (sha256.pad msg)).
  intros l. pose proof (fold_block_length l sha256.init) as Hlen.
  revert Hlen. generalize (fold_left sha256.block l sha256.init). intros h Hlen.
  change (length sha256.init) with 8%nat in Hlen.
  do 9 (destruct h as [|? h]; simpl in Hlen; try discriminate).
  reflexivity.
Qed.

Lemma Sum256_range msg : Forall (fun b => 0 <= b < 256) (sha256.Sum256 msg).
Proof.
  unfold sha256.Sum256.
  generalize (fold_left sha256.block
                (sha256.chunks (length (sha256.pad msg) / 64) 64 (sha256.pad msg))
                sha256.init).
  intros h. induction h as [|x h IH]; [constructor|].
  cbn [map concat]. apply Forall_app. split; [apply (be_bytes_range 4)|exact IH].
Qed.

Lemma hexdigit_is_hex d : 0 <= d < 16 -> is_hex (fmt.hexdigit d) = true.
Proof.
  intros Hd.
  assert (d = 0 \/ d = 1 \/ d = 2 \/ d = 3 \/ d = 4 \/ d = 5 \/ d = 6 \/ d = 7
          \/ d = 8 \/ d = 9 \/ d = 10 \/ d = 11 \/ d = 12 \/ d = 13 \/ d = 14
          \/ d = 15) as Hcases by lia.
  repeat (destruct Hcases as [-> | Hcases]; [reflexivity|]). by subst.
Qed.

Lemma hex_format bs :
  Forall (fun b => 0 <= b < 256) bs ->
  String.length (fmt.hex bs) = (2 * length bs)%nat
  /\ string_forall is_hex (fmt.hex bs) = true.
Proof.
  induction 1 as [|b bs Hb _ [IHl IHh]]; simpl; [done|].
  split; [rewrite IHl; lia|].
  rewrite IHh, !hexdigit_is_hex; [done| |].
  - apply Z.mod_pos_bound. lia.
  - split; [apply Z.div_pos; lia | apply Z.div_lt_upper_bound; lia].
Qed.

(** [X14] Identifiers have a fixed shape, whatever they are derived from:
    an object identifier and a file identifier are 16 lower-case hexadecimal
    digits, a content hash is 64. *)
Theorem identifier_format (fileID resourceType name : string) (index : nat)
    (source : FileSource) (path content : string) :
  (String.length (generateObjectID fileID resourceType name index) = 16%nat
   /\ string_forall is_hex (generateObjectID fileID resourceType name index) = true)
  /\ (String.length (generateFileID source path) = 16%nat
      /\ string_forall is_hex (generateFileID source path) = true)
  /\ (String.length (generateContentHash content) = 64%nat
      /\ string_forall is_hex (generateContentHash content) = true).
Proof.
  assert (forall msg,
            String.length (fmt.hex (take 8 (sha256.Sum256 msg))) = 16%nat
            /\ string_forall is_hex (fmt.hex (take 8 (sha256.Sum256 msg))) = true)
    as Hshort.
  { intros msg.
    destruct (hex_format (take 8 (sha256.Sum256 msg))) as [Hl Hh].
    { apply Forall_take, Sum256_range. }
    split; [|done]. by rewrite Hl, length_take, Sum256_length. }
  split; [apply Hshort|]. split; [apply Hshort|].
  unfold generateContentHash.
  destruct (hex_format (sha256.Sum256 (fmt.bytes content)) (Sum256_range _)) as [Hl Hh].
  split; [|done]. by rewrite Hl, Sum256_length.
Qed.

Lemma append_assoc (a b c : string) : (a +:+ b) +:+ c = a +:+ (b +:+ c).
Proof.
  induction a as [|x a IH]; [done|]. rewrite !append_cons. by rewrite IH.
Qed.

(** [X15] The [':'] that joins the inputs of an identifier is not escaped,
    so a [':'] inside an input can be read as the separator: moving a
    segment across a field boundary gives the same identifier.  This holds
    for object identifiers (resource type against name) and for file
    identifiers (source against path). *)
Theorem identifier_separator_ambiguity (fileID a b c : string) (index : nat) :
  generateObjectID fileID (a +:+ ":" +:+ b) c index
  = generateObjectID fileID a (b +:+ ":" +:+ c) index
  /\ generateFileID (a +:+ ":" +:+ b) c = generateFileID a (b +:+ ":" +:+ c).
Proof.
  unfold generateObjectID, generateFileID. split; do 4 f_equal.
  - f_equal. by rewrite !append_assoc.
  - by rewrite !append_assoc.
Qed.

End Identifiers.

(** ** More on the snapshot parser *)

Section StateParserMore.

Import model parser descriptions.

Variable Unmarshal : string -> TerraformState + error.
Variable ParseHCL : string -> string -> File * Diagnostics.

Implicit Types (ctx : context.Context) (file : TerraformFile) (w : World).
Implicit Types (state : TerraformState) (provider pre : string).

Lemma scan_slash_none provider n start :
  string_exists is_slash provider = false -> scan_slash provider n start = start.
Proof.
  intros Hno. induction n as [|i IH]; simpl; [done|].
  by rewrite string_exists_false.
Qed.

(** Without a ['/'] the backward loop leaves [start] at the last byte. *)
Lemma extractProviderName_last_char pre c :
  string_exists is_slash (pre +:+ String c EmptyString) = false ->
  extractProviderName (pre +:+ String c EmptyString)
  = if is_close c then pre +:+ String c EmptyString else String c EmptyString.
Proof.
  intros Hno. unfold extractProviderName.
  set (provider := pre +:+ String c EmptyString) in *.
  assert (String.length provider = S (String.length pre)) as Hlen.
  { unfold provider. rewrite length_append. simpl. lia. }
  assert (byte_is provider (String.length pre) is_close = is_close c) as Hlast.
  { unfold provider. rewrite <- (Nat.add_0_r (String.length pre)) at 1.
    by rewrite byte_is_append_r. }
  destruct (Nat.eqb_spec (String.length provider) 0) as [|_]; [lia|].
  rewrite scan_slash_none by done.
  replace (String.length provider - 1) with (String.length pre) by lia.
  destruct (is_close c) eqn:Hc.
  - rewrite (scan_close_spec provider (String.length pre)); [| lia | by right | lia | lia |].
    + by rewrite Nat.ltb_irrefl.
    + intros j Hj. lia.
  - rewrite (scan_close_spec provider (String.length provider)); [| lia | by left | lia | lia |].
    + rewrite Hlen. destruct (Nat.ltb_spec (String.length pre) (S (String.length pre)));
        [|lia].
      replace (S (String.length pre) - String.length pre) with 1 by lia.
      unfold provider. by rewrite substring_append_r.
    + intros j Hj. assert (j = String.length pre) as -> by lia. by rewrite Hlast.
Qed.

Lemma string_snoc s :
  s <> EmptyString -> exists pre c, s = pre +:+ String c EmptyString.
Proof.
  induction s as [|x s IH]; [done|]. intros _.
  destruct s as [|y s].
  - by exists EmptyString, x.
  - destruct IH as (pre & c & Heq); [done|].
    exists (String x pre), c. rewrite append_cons. by rewrite <- Heq.
Qed.

(** [X11] [extractProviderName] gives the empty name for the empty provider
    string and for no other: a non-empty provider string always yields a
    non-empty name. *)
Theorem extractProviderName_empty_iff provider :
  extractProviderName provider = EmptyString <-> provider = EmptyString.
Proof.
  split; [|by intros ->].
  intros Hname. destruct (decide (provider = EmptyString)) as [|Hne]; [done|].
  exfalso. destruct (string_exists is_slash provider) eqn:Hs.
  - rewrite extractProviderName_after_slash in Hname by done.
    unfold provider_name_after_slash in Hname.
    by destruct (until_close (substring_after_last_slash provider)).
  - destruct (string_snoc provider Hne) as (pre & c & ->).
    rewrite extractProviderName_last_char in Hname by done.
    destruct (is_close c); [|done]. by destruct pre.
Qed.

(** [X10] A provider string without ['/'] is not kept whole: the name
    stored on the record is its last character, except that a provider
    string ending in a double quote or a closing bracket is stored as it
    is. *)
Theorem StateParser_provider_name_without_slash ctx file w state objects err w' :
  Unmarshal (file_Content file) = inl state ->
  StateParser_Parse Unmarshal ctx file w = (Some (objects, err), w') ->
  Forall2 (fun obj '(resource, i, instance) =>
             forall pre c,
               res_Provider resource = pre +:+ String c EmptyString ->
               string_exists is_slash (res_Provider resource) = false ->
               obj_ProviderName obj
               = if is_close c then res_Provider resource else String c EmptyString)
          objects (instances_of state).
Proof.
  intros Hdec Hparse.
  eapply Forall2_impl; [by eapply StateParser_Parse_records|].
  intros obj [[resource i] instance] (a & b & ->) pre c Hp Hno. simpl.
  rewrite Hp in *. by apply extractProviderName_last_char.
Qed.

(** The records of a loop, with the readings they were stamped with. *)
Lemma stamp_Forall_times {A} (mk : nat -> A -> Time -> Time -> TerraformObject)
    (P : TerraformObject -> Prop) clk :
  (forall i x t, P (mk i x (clk t) (clk (S t)))) ->
  forall l i0 t0, Forall P (stamp mk i0 l clk t0).
Proof. intros HP. induction l; intros; simpl; constructor; auto. Qed.

Lemma stamp_resources_Forall_times (P : TerraformObject -> Prop) file clk :
  (forall resource i instance t,
      P (object_of_instance file resource i instance (clk t) (clk (S t)))) ->
  forall resources t0, Forall P (stamp_resources file resources clk t0).
Proof.
  intros HP. induction resources as [|r rs IH]; intros t0; simpl; [constructor|].
  apply Forall_app. split; [|apply IH].
  apply stamp_Forall_times. intros. apply HP.
Qed.

Lemma stamp_blocks_Forall_times (P : TerraformObject -> Prop) fileID clk :
  (forall block h t, P (object_of_header fileID block h (clk t) (clk (S t)))) ->
  forall blocks t0 objects,
    stamp_blocks fileID blocks clk t0 = Some objects -> Forall P objects.
Proof.
  intros HP. induction blocks as [|block blocks IH]; intros t0 objects; simpl.
  - intros [= <-]. constructor.
  - destruct (block_header block) as [[h|]|]; [| |done].
    + destruct (stamp_blocks fileID blocks clk (S (S t0))) as [objs|] eqn:Hobjs;
        [|done]. intros [= <-]. constructor; [apply HP|by eapply IH].
    + apply IH.
Qed.

Lemma TerraformParser_Parse_Forall (P : TerraformObject -> Prop) ctx file w objects err :
  (forall block h t,
      P (object_of_header (file_ID file) block h (clock w t) (clock w (S t)))) ->
  (TerraformParser_Parse ParseHCL ctx file w).1 = Some (objects, err) ->
  Forall P objects.
Proof.
  intros HP. rewrite TerraformParser_Parse_eq.
  destruct (ParseHCL (file_Content file) (file_SourcePath file)) as [hclFile diags].
  destruct (HasErrors diags); [intros [= <- <-]; constructor|].
  destruct (PartialContent hclFile) as [content diags'].
  destruct (HasErrors diags'); [intros [= <- <-]; constructor|].
  destruct (stamp_blocks (file_ID file) (Blocks content) (clock w) (ticks w))
    as [objs|] eqn:Hobjs; [|done].
  intros [= <- <-]. by eapply stamp_blocks_Forall_times.
Qed.

(** [X12] Timestamps.  When the clock never goes back, every record of
    either parser has a creation time that is not after its update time.
    The snapshot parser reads the clock exactly twice per record returned
    and touches nothing else of the world. *)
Theorem Parse_timestamps ctx file w :
  monotone (clock w) ->
  (forall objects err w',
      StateParser_Parse Unmarshal ctx file w = (Some (objects, err), w') ->
      Forall (fun obj => (obj_CreatedAt obj <= obj_UpdatedAt obj)%Z) objects
      /\ w' = advance (2 * length objects) w)
  /\ (forall objects err,
        (TerraformParser_Parse ParseHCL ctx file w).1 = Some (objects, err) ->
        Forall (fun obj => (obj_CreatedAt obj <= obj_UpdatedAt obj)%Z) objects).
Proof.
  intros Hmono. split.
  - intros objects err w' Hparse.
    destruct (Unmarshal (file_Content file)) as [state|e] eqn:Hdec.
    + rewrite (StateParser_Parse_decoded _ _ _ _ _ Hdec) in Hparse. simplify_eq.
      split.
      * apply stamp_resources_Forall_times. intros. simpl. apply Hmono. lia.
      * by rewrite length_stamp_resources.
    + rewrite (StateParser_Parse_failed _ _ _ _ _ Hdec) in Hparse. simplify_eq.
      split; [constructor|]. by rewrite advance_0.
  - intros objects err. apply TerraformParser_Parse_Forall.
    intros block [[[objectType name] resourceType] address] t. simpl.
    apply Hmono. lia.
Qed.

(** [X13] Fields the parsers never fill.  A snapshot record has no
    dependencies and no sensitive values, whatever its instance declares.  A
    declarative-config record has, besides, no mode, no provider name and
    schema version 0. *)
Theorem Parse_unfilled_fields ctx file w :
  (forall objects err w',
      StateParser_Parse Unmarshal ctx file w = (Some (objects, err), w') ->
      Forall (fun obj => obj_Dependencies obj = [] /\ obj_SensitiveValues obj = [])
             objects)
  /\ (forall objects err,
        (TerraformParser_Parse ParseHCL ctx file w).1 = Some (objects, err) ->
        Forall (fun obj => obj_Dependencies obj = [] /\ obj_SensitiveValues obj = []
                           /\ obj_Mode obj = EmptyString
                           /\ obj_ProviderName obj = EmptyString
                           /\ obj_SchemaVersion obj = 0%Z)
               objects).
Proof.
  split.
  - intros objects err w' Hparse.
    destruct (Unmarshal (file_Content file)) as [state|e] eqn:Hdec.
    + rewrite (StateParser_Parse_decoded _ _ _ _ _ Hdec) in Hparse. simplify_eq.
      by apply stamp_resources_Forall_times.
    + rewrite (StateParser_Parse_failed _ _ _ _ _ Hdec) in Hparse. simplify_eq.
      constructor.
  - intros objects err. apply TerraformParser_Parse_Forall.
    by intros block [[[objectType name] resourceType] address] t.
Qed.

(** [X16] No partial results: when a parser, or the registry of the
    program, returns an error, it returns no record with it. *)
Theorem Parse_error_has_no_records ctx file w objects e :
  ((StateParser_Parse Unmarshal ctx file w).1 = Some (objects, Some e) -> objects = [])
  /\ ((TerraformParser_Parse ParseHCL ctx file w).1 = Some (objects, Some e) ->
      objects = [])
  /\ ((ParserRegistry_Parse (main_registry Unmarshal ParseHCL) ctx file w).1
      = Some (objects, Some e) -> objects = []).
Proof.
  assert ((StateParser_Parse Unmarshal ctx file w).1 = Some (objects, Some e) ->
          objects = []) as HS.
  { destruct (Unmarshal (file_Content file)) as [state|e'] eqn:Hdec.
    - by rewrite (StateParser_Parse_decoded _ _ _ _ _ Hdec).
    - rewrite (StateParser_Parse_failed _ _ _ _ _ Hdec). by intros [= <- _]. }
  assert ((TerraformParser_Parse ParseHCL ctx file w).1 = Some (objects, Some e) ->
          objects = []) as HT.
  { rewrite TerraformParser_Parse_eq.
    destruct (ParseHCL (file_Content file) (file_SourcePath file)) as [hclFile diags].
    destruct (HasErrors diags); [by intros [= <- _]|].
    destruct (PartialContent hclFile) as [content diags'].
    destruct (HasErrors diags'); [by intros [= <- _]|].
    by destruct (stamp_blocks (file_ID file) (Blocks content) (clock w) (ticks w)). }
  split; [exact HS|]. split; [exact HT|].
  destruct (main_registry_result Unmarshal ParseHCL ctx file w) as [-> | [-> | ->]];
    [exact HS | exact HT | done].
Qed.

End StateParserMore.

(** ** More on the declarative-config parser *)

Section TerraformParserMore.

Import model parser descriptions.

Implicit Types (ctx : context.Context) (file : TerraformFile) (w : World).
Implicit Types (block : Block) (blocks : list Block).

Lemma TerraformParser_Parse_decoded ParseHCL ctx file w blocks :
  decoded_blocks ParseHCL file = Some blocks ->
  (TerraformParser_Parse ParseHCL ctx file w).1
  = (fun objects => (objects, None))
      <$> stamp_blocks (file_ID file) blocks (clock w) (ticks w).
Proof.
  rewrite TerraformParser_Parse_eq. unfold decoded_blocks.
  destruct (ParseHCL (file_Content file) (file_SourcePath file)) as [hclFile diags].
  destruct (HasErrors diags); [done|].
  destruct (PartialContent hclFile) as [content diags'].
  destruct (HasErrors diags'); [done|]. by intros [= <-].
Qed.

(** On a block that fits the schema the switch of [parseBlock] takes the
    block type for the kind and the last label for the name. *)
Lemma schema_ok_header_eq block objectType name resourceType address :
  schema_ok block ->
  block_header block = Some (Some (objectType, name, resourceType, address)) ->
  objectType = blk_Type block /\ last (blk_Labels block) = Some name.
Proof.
  unfold schema_ok, block_header.
  intros [[Ht Hl]|[Ht Hl]];
    destruct (blk_Labels block) as [|l0 [|l1 [|l2 ls]]]; simpl in Hl; try lia;
    repeat (apply elem_of_cons in Ht as [Ht|Ht]); try (by apply elem_of_nil in Ht);
    rewrite Ht; repeat (case_decide; [try discriminate|]); simpl;
    by intros [= <- <- <- <-].
Qed.

(** [X17] The identifier of a declarative-config record is made of the
    item's id, the type of its block and the last label of its block, and
    of nothing else.  The resource type, the first label of a [resource] or
    [data] block, is no input: blocks of one type and one name in a file,
    such as two resources of different resource types, get one
    identifier. *)
Theorem TerraformParser_identifier_by_block ParseHCL ctx file w blocks objects err :
  decoded_blocks ParseHCL file = Some blocks ->
  Forall schema_ok blocks ->
  (TerraformParser_Parse ParseHCL ctx file w).1 = Some (objects, err) ->
  Forall2 (fun obj block =>
             exists name,
               last (blk_Labels block) = Some name
               /\ obj_ID obj = generateObjectID (file_ID file) (blk_Type block) name 0)
          objects blocks.
Proof.
  intros Hdec Hok. rewrite (TerraformParser_Parse_decoded _ _ _ _ _ Hdec).
  destruct (stamp_blocks_schema_ok (file_ID file) blocks Hok (clock w) (ticks w))
    as (objs & -> & Hall).
  intros [= <- <-].
  apply Forall2_flip, Forall2_same_length_lookup.
  apply Forall2_flip, Forall2_same_length_lookup in Hall as [Hlen Hall].
  split; [done|]. intros i block obj Hb Ho.
  destruct (Hall i block obj Hb Ho)
    as ([[[objectType name] resourceType] address] & a & b & Hh & ->).
  assert (schema_ok block) as Hs.
  { rewrite List.Forall_forall in Hok. apply Hok. apply list_elem_of_In.
    by eapply list_elem_of_lookup_2. }
  destruct (schema_ok_header_eq _ _ _ _ _ Hs Hh) as [-> Hlast].
  by exists name.
Qed.

(** The loop of [TerraformParser.Parse] over blocks that fit the schema,
    with the world it leaves. *)
Lemma TerraformParser_blocks_schema_ok fileID blocks :
  Forall schema_ok blocks ->
  forall i0 acc w,
    exists objects,
      for_range (fun objects (_ : nat) block =>
        let* r := parseBlock fileID block in
        match r with
        | (Some obj, None) => ret (objects ++ [obj])
        | _ => ret objects
        end) i0 blocks acc w
      = (Some (acc ++ objects), advance (2 * length blocks) w)
      /\ length objects = length blocks.
Proof.
  induction 1 as [|block blocks Hb _ IH]; intros i0 acc w.
  - exists []. simpl. by rewrite app_nil_r, advance_0.
  - cbn [for_range]. unfold bind at 1. unfold bind at 1.
    rewrite parseBlock_eq.
    destruct (schema_ok_header block Hb) as (h & ->). simpl.
    destruct (IH (S i0)
                (acc ++ [object_of_header fileID block h
                           (clock w (ticks w)) (clock w (S (ticks w)))])
                (advance 2 w)) as (objects & -> & Hlen).
    eexists (_ :: objects). split; [|by rewrite length_cons, Hlen].
    rewrite <- app_assoc, advance_advance. simpl. do 3 f_equal. lia.
Qed.

(** [X18] [parseBlock] reads the labels of a block without looking at their
    number; the block schema passed to [PartialContent] is what makes the
    reads safe.  On a file that decodes, with blocks as the schema delivers
    them, [TerraformParser.Parse] does not panic and returns no error: it
    returns one record per block, reads the clock twice per block and
    leaves the rest of the world as it was. *)
Theorem TerraformParser_Parse_returns ParseHCL ctx file w blocks :
  decoded_blocks ParseHCL file = Some blocks ->
  Forall schema_ok blocks ->
  exists objects,
    TerraformParser_Parse ParseHCL ctx file w
    = (Some (objects, None), advance (2 * length blocks) w)
    /\ length objects = length blocks.
Proof.
  unfold decoded_blocks, TerraformParser_Parse. intros Hdec Hok.
  destruct (ParseHCL (file_Content file) (file_SourcePath file)) as [hclFile diags].
  destruct (HasErrors diags); [done|].
  destruct (PartialContent hclFile) as [content diags'].
  destruct (HasErrors diags'); [done|]. simplify_eq.
  destruct (TerraformParser_blocks_schema_ok (file_ID file) (Blocks content) Hok 0 [] w)
    as (objects & Hloop & Hlen).
  exists objects. split; [|done]. unfold bind at 1. by rewrite Hloop.
Qed.

End TerraformParserMore.

(** ** The collector *)

Section Collector.

Import model parser collector descriptions.

Implicit Types (ctx : context.Context) (w : World) (path p e : string).

Lemma createTerraformFile_eq (source : FileSource) path content (fileType : FileType) w :
  createTerraformFile source path content fileType w
  = (Some {| file_ID := generateFileID source path;
             file_Source := source;
             file_SourcePath := path;
             file_FileType := fileType;
             file_Content := content;
             file_ContentHash := generateContentHash content;
             file_CollectedAt := clock w (ticks w);
             file_UpdatedAt := clock w (ticks w) |}, advance 1 w).
Proof. reflexivity. Qed.

(** [X19] The mock collector never fails.  It returns a "tf" file followed
    by a "tfstate" file for the source "s3" and for every source it does
    not know, and one "tf" file for "kubernetes" and for "bitbucket"; it
    reads the clock once per file.  Every file carries the collector's
    source, the identifier of its source and path, the hash of its content,
    equal collection and update times, and the file type that
    [determineFileType] gives for its path. *)
Theorem MockCollector_Collect_files (c : MockCollector) ctx w :
  exists files,
    MockCollector_Collect c ctx w = (Some (files, None), advance (length files) w)
    /\ map file_FileType files
       = (if decide (source c = FileSourceKubernetes \/ source c = FileSourceBitbucket)
          then [FileTypeTerraform] else [FileTypeTerraform; FileTypeState])
    /\ Forall (fun f =>
                 file_Source f = source c
                 /\ file_ID f = generateFileID (source c) (file_SourcePath f)
                 /\ file_ContentHash f = generateContentHash (file_Content f)
                 /\ file_CollectedAt f = file_UpdatedAt f
                 /\ file_FileType f = determineFileType (file_SourcePath f))
              files.
Proof.
  unfold MockCollector_Collect, bind.
  destruct (decide (source c = FileSourceS3)) as [Hs|Hs];
    [|destruct (decide (source c = FileSourceKubernetes)) as [Hk|Hk];
      [|destruct (decide (source c = FileSourceBitbucket)) as [Hb|Hb]]];
    repeat (rewrite createTerraformFile_eq; cbv beta iota);
    rewrite ?advance_advance; unfold ret;
    (eexists; split; [f_equal|]).
  all: try (cbn [app length]; reflexivity).
  all: cbn [app map file_FileType].
  all: split; [case_decide as Hd; [|try done; tauto]; try done;
               destruct Hd as [Hd|Hd]; rewrite Hd in *; done
              |repeat constructor].
Qed.

Lemma get_lt s j : j < String.length s -> exists c, String.get j s = Some c.
Proof.
  revert j. induction s as [|x s IH]; intros j Hj; simpl in *; [lia|].
  destruct j as [|j]; [by eexists|]. apply IH. lia.
Qed.

Lemma append_empty_r s : s +:+ EmptyString = s.
Proof. induction s as [|x s IH]; [done|]. rewrite append_cons. by rewrite IH. Qed.

(** The loop of [filepath.Ext] stops at the last dot of the last element. *)
Lemma Ext_from_spec path m n :
  String.get m path = Some "."%char ->
  S m <= n <= String.length path ->
  (forall j, S m <= j < n -> byte_is path j is_dot_or_slash = false) ->
  Ext_from path n = substring m (String.length path - m) path.
Proof.
  intros Hm. induction n as [|i IH]; intros Hle Hno; [lia|]. simpl.
  destruct (decide (i = m)) as [->|Hne].
  - rewrite Hm. done.
  - assert (byte_is path i is_dot_or_slash = false) as Hi by (apply Hno; lia).
    destruct (get_lt path i) as [c Hc]; [lia|].
    unfold byte_is in Hi. rewrite Hc in *.
    apply orb_false_iff in Hi as [-> ->].
    apply IH; [lia|]. intros j Hj. apply Hno. lia.
Qed.

Lemma Ext_of_extension p e :
  string_exists is_dot_or_slash e = false ->
  Ext (p +:+ String "." e) = String "." e.
Proof.
  intros He. unfold Ext.
  assert (String.length (p +:+ String "." e) = String.length p + S (String.length e))
    as Hlen by (by rewrite length_append).
  rewrite (Ext_from_spec _ (String.length p)).
  - rewrite Hlen.
    replace (String.length p + S (String.length e) - String.length p)
      with (String.length (String "." e)) by (simpl; lia).
    rewrite substring_append_r.
    rewrite <- (append_empty_r (String "." e)) at 2. apply substring_append_l.
  - clear. induction p as [|x p IH]; [done|]. exact IH.
  - lia.
  - intros j Hj. replace j with (String.length p + S (j - S (String.length p))) by lia.
    rewrite byte_is_append_r. unfold byte_is. simpl. by apply string_exists_false.
Qed.

(** [X20] The file type goes by the extension: what follows the last dot of
    the last path element, compared without regard to case.  "tf" makes a
    configuration file and "tfstate" a state file wherever the file lies;
    for any other extension the file is a state file when its path holds
    "tfstate" or ends in ".json", and a configuration file otherwise. *)
Theorem determineFileType_by_extension p e :
  string_exists is_dot_or_slash e = false ->
  determineFileType (p +:+ String "." e)
  = if String.eqb (ToLower e) "tf" then FileTypeTerraform
    else if String.eqb (ToLower e) "tfstate" then FileTypeState
    else if Contains (p +:+ String "." e) "tfstate"
            || HasSuffix (p +:+ String "." e) ".json"
         then FileTypeState
         else FileTypeTerraform.
Proof.
  intros He. unfold determineFileType. by rewrite Ext_of_extension.
Qed.

Lemma prefix_append s b : String.prefix s (s +:+ b) = true.
Proof.
  induction s as [|x s IH]; [by destruct b|].
  rewrite append_cons. simpl. by destruct (Ascii.ascii_dec x x).
Qed.

Lemma Contains_middle a s b : Contains (a +:+ s +:+ b) s = true.
Proof.
  induction a as [|x a IH].
  - change (EmptyString +:+ s +:+ b) with (s +:+ b).
    assert (forall t, String.prefix s t = true -> Contains t s = true) as Hp
      by (intros [|y t] Ht; simpl in *; by rewrite Ht).
    apply Hp, prefix_append.
  - rewrite append_cons. simpl. rewrite IH. apply orb_true_r.
Qed.

Lemma substring_all s : substring 0 (String.length s) s = s.
Proof. induction s as [|x s IH]; simpl; [done|]. by rewrite IH. Qed.

Lemma HasSuffix_append p s : HasSuffix (p +:+ s) s = true.
Proof.
  unfold HasSuffix. rewrite length_append.
  replace (String.length p + String.length s - String.length s)
    with (String.length p) by lia.
  rewrite substring_append_r, substring_all.
  rewrite String.eqb_refl, andb_true_r. apply Nat.leb_le. lia.
Qed.

(** [X21] What falls back to "state".  Every path that ends in ".json" is
    taken for a state file, a JSON configuration file such as "main.tf.json"
    included.  A path that holds "tfstate" anywhere, in a directory name as
    well, is a state file unless its extension is "tf". *)
Theorem determineFileType_state_fallback p a b :
  determineFileType (p +:+ ".json") = FileTypeState
  /\ determineFileType (a +:+ "tfstate" +:+ b)
     = if String.eqb (ToLower (Ext (a +:+ "tfstate" +:+ b))) ".tf"
       then FileTypeTerraform else FileTypeState.
Proof.
  split.
  - unfold determineFileType.
    rewrite (Ext_of_extension p "json") by done.
    by rewrite HasSuffix_append, orb_true_r.
  - unfold determineFileType. rewrite Contains_middle.
    by repeat case_match.
Qed.

End Collector.

(** ** The further properties on sample inputs *)

Section Instances.

Import model parser collector descriptions testdata.

Lemma two_consumers_well_formed : queue_runs.well_formed samples.two_consumers.
Proof.
  split; [constructor|]. intros t. unfold queue.pc_of. simpl.
  split; [by intros ?%elem_of_nil|]. by destruct t as [|[|t]].
Qed.

Lemma two_parked_well_formed : queue_runs.well_formed samples.two_parked.
Proof.
  split; [apply NoDup_cons; split;
            [rewrite list_elem_of_singleton; lia | apply NoDup_singleton]|].
  intros t. unfold queue.pc_of. simpl.
  rewrite !elem_of_cons, elem_of_nil.
  destruct t as [|[|t]]; simpl; split; try done; try (intros; lia); auto.
Qed.

Lemma parked_and_cancelled_well_formed :
  queue_runs.well_formed samples.parked_and_cancelled.
Proof.
  split; [apply NoDup_cons; split;
            [rewrite list_elem_of_singleton; lia | apply NoDup_singleton]|].
  intros t. unfold queue.pc_of. simpl.
  rewrite !elem_of_cons, elem_of_nil.
  destruct t as [|[|t]]; simpl; split; try done; try (intros; lia); auto.
Qed.


Lemma midnight_monotone : monotone (clock midnight).
Proof. intros i j Hij. simpl. lia. Qed.

(** Two consumers park, three items come in, each consumer takes one: 7 and
    8 are handed out in this order and 9 stays in the buffer. *)
Lemma queue_conservation_witness :
  exists s',
    queue.run samples.two_consumers
      [queue.EvRun 0; queue.EvRun 1; queue.EvEnqueue context.Background 7;
       queue.EvRun 0; queue.EvEnqueue context.Background 8;
       queue.EvEnqueue context.Background 9; queue.EvRun 1] = Some s'
    /\ [7; 8; 9]
       = queue_runs.deliveries samples.two_consumers
           [queue.EvRun 0; queue.EvRun 1; queue.EvEnqueue context.Background 7;
            queue.EvRun 0; queue.EvEnqueue context.Background 8;
            queue.EvEnqueue context.Background 9; queue.EvRun 1]
         ++ queue.items (queue.sys_queue s').
Proof.
  eexists. split; [reflexivity|].
  apply (queue_conservation
           [queue.EvRun 0; queue.EvRun 1; queue.EvEnqueue context.Background 7;
            queue.EvRun 0; queue.EvEnqueue context.Background 8;
            queue.EvEnqueue context.Background 9; queue.EvRun 1]
           samples.two_consumers).
  reflexivity.
Defined.

(** Three items in, two out, one left. *)
Lemma Size_accounting_witness :
  queue.Size (queue.sys_queue samples.two_consumers) + 3 = 2 + 1.
Proof.
  exact (Size_accounting
           [queue.EvRun 0; queue.EvRun 1; queue.EvEnqueue context.Background 7;
            queue.EvRun 0; queue.EvEnqueue context.Background 8;
            queue.EvEnqueue context.Background 9; queue.EvRun 1]
           samples.two_consumers _ eq_refl).
Defined.

Lemma well_formed_run_witness :
  queue_runs.well_formed
    {| queue.sys_queue := {| queue.items := []; queue.cond := [1] |};
       queue.sys_consumers :=
         [ {| queue.c_ctx := context.Background;
              queue.c_pc := queue.Returned (inl 7) |};
           {| queue.c_ctx := context.Background; queue.c_pc := queue.Waiting |} ] |}.
Proof.
  apply (well_formed_run
           [queue.EvRun 0; queue.EvEnqueue context.Background 7; queue.EvRun 0;
            queue.EvRun 1]
           samples.two_consumers _ two_consumers_well_formed).
  reflexivity.
Defined.


(** [Close] on two parked consumers: both run again, and the second parks
    again at once. *)
Lemma Close_only_wakes_witness :
  exists s' s'',
    queue.step samples.two_parked queue.EvClose = Some s'
    /\ queue.cond (queue.sys_queue s') = []
    /\ queue.step s' (queue.EvRun 1) = Some s''
    /\ queue.cond (queue.sys_queue s'') = [1].
Proof.
  destruct (Close_only_wakes samples.two_parked two_parked_well_formed)
    as (s' & Hstep & _ & Hcond & _ & Hpark).
  destruct (Hpark 1 eq_refl eq_refl) as (s'' & Hrun & _ & _ & Hcond').
  exists s', s''. auto.
Defined.

(** A consumer that has returned an item was released by an [Enqueue]. *)
Lemma Dequeue_blocks_while_empty_witness :
  existsb (queue.releases 0)
    [queue.EvRun 0; queue.EvEnqueue context.Background 7; queue.EvRun 0] = true.
Proof.
  exact (Dequeue_blocks_while_empty
           [queue.EvRun 0; queue.EvEnqueue context.Background 7; queue.EvRun 0]
           samples.two_consumers _ 0 (inl 7) eq_refl eq_refl eq_refl eq_refl).
Defined.

(** After [Close] the other consumer runs and parks again and an item comes
    in: the cancelled consumer returns the item.  Without the [Enqueue] it
    returns the cancellation. *)
Lemma Close_delivers_cancellation_witness :
  (exists s1 s2,
      queue.run samples.parked_and_cancelled
        [queue.EvClose; queue.EvRun 1; queue.EvEnqueue context.Background 7] = Some s1
      /\ queue.step s1 (queue.EvRun 0) = Some s2
      /\ queue.pc_of s2 0 = Some (queue.Returned (inl 7)))
  /\ (exists s1 s2,
        queue.run samples.parked_and_cancelled [queue.EvClose; queue.EvRun 1] = Some s1
        /\ queue.step s1 (queue.EvRun 0) = Some s2
        /\ queue.pc_of s2 0 = Some (queue.Returned (inr context.Canceled))).
Proof.
  split.
  - destruct (Close_delivers_cancellation samples.parked_and_cancelled 0 context.Canceled
                [queue.EvRun 1; queue.EvEnqueue context.Background 7] _
                parked_and_cancelled_well_formed eq_refl eq_refl eq_refl)
      as (s2 & Hstep & Hpc).
    eexists _, s2. split; [reflexivity|]. by split.
  - destruct (Close_delivers_cancellation samples.parked_and_cancelled 0 context.Canceled
                [queue.EvRun 1] _
                parked_and_cancelled_well_formed eq_refl eq_refl eq_refl)
      as (s2 & Hstep & Hpc).
    eexists _, s2. split; [reflexivity|]. by split.
Defined.

(** A "tfstate" file stays with the snapshot parser when the
    declarative-config parser is registered after it. *)
Lemma Register_keeps_dispatch_witness :
  ParserRegistry_Parse (registry three_instances [example_block no_errors])
    context.Background (tfstate "f") midnight
  = ParserRegistry_Parse
      (Register NewParserRegistry (StateParser (decoder three_instances)))
      context.Background (tfstate "f") midnight.
Proof.
  exact (proj1 (Register_keeps_dispatch
                  (Register NewParserRegistry (StateParser (decoder three_instances)))
                  (TerraformParser (hcl [example_block no_errors]))
                  context.Background (tfstate "f") midnight)
               (List.Exists_cons_hd _ (StateParser (decoder three_instances)) []
                  (eq_refl true))).
Defined.

(** The third instance of [three_instances] has the provider string "aws". *)
Lemma StateParser_provider_name_without_slash_witness :
  Forall2 (fun obj '(resource, i, instance) =>
             forall pre c,
               res_Provider resource = pre +:+ String c EmptyString ->
               string_exists is_slash (res_Provider resource) = false ->
               obj_ProviderName obj
               = if is_close c then res_Provider resource else String c EmptyString)
          (stamp_resources (tfstate "f") (st_Resources three_instances) Z.of_nat 0)
          (instances_of three_instances).
Proof.
  exact (StateParser_provider_name_without_slash (decoder three_instances)
           context.Background (tfstate "f") midnight three_instances _ None _
           eq_refl eq_refl).
Defined.

Lemma extractProviderName_empty_iff_witness :
  extractProviderName EmptyString = EmptyString.
Proof. exact (proj2 (extractProviderName_empty_iff EmptyString) eq_refl). Defined.

(** The three records of [three_instances] on a clock that counts. *)
Lemma Parse_timestamps_witness :
  Forall (fun obj => (obj_CreatedAt obj <= obj_UpdatedAt obj)%Z)
         (stamp_resources (tfstate "f") (st_Resources three_instances) Z.of_nat 0).
Proof.
  exact (proj1 (proj1 (Parse_timestamps (decoder three_instances)
                         (hcl [example_block no_errors])
                         context.Background (tfstate "f") midnight midnight_monotone)
                      _ None _ eq_refl)).
Defined.

Lemma Parse_unfilled_fields_witness :
  Forall (fun obj => obj_Dependencies obj = [] /\ obj_SensitiveValues obj = [])
         (stamp_resources (tfstate "f") (st_Resources three_instances) Z.of_nat 0).
Proof.
  exact (proj1 (Parse_unfilled_fields (decoder three_instances)
                  (hcl [example_block no_errors])
                  context.Background (tfstate "f") midnight)
               _ None _ eq_refl).
Defined.

(** A "tfstate" file without content does not decode. *)
Lemma Parse_error_has_no_records_witness :
  (StateParser_Parse (decoder three_instances) context.Background
     (samples.empty_tfstate "f") midnight).1
  = Some ([], Some "failed to parse state file: unexpected end of JSON input")
  /\ @nil TerraformObject = [].
Proof.
  split; [reflexivity|].
  exact (proj1 (Parse_error_has_no_records (decoder three_instances)
                  (hcl [example_block no_errors])
                  context.Background (samples.empty_tfstate "f") midnight
                  [] "failed to parse state file: unexpected end of JSON input")
               eq_refl).
Defined.

(** Two resources of one name and different types get one identifier. *)
Lemma TerraformParser_identifier_by_block_witness :
  Forall2 (fun obj block =>
             exists name,
               last (blk_Labels block) = Some name
               /\ obj_ID obj = generateObjectID "f" (blk_Type block) name 0)
          [ object_of_block "f" "resource" "x" "aws_instance" "aws_instance.x" ∅ 0%Z 1%Z;
            object_of_block "f" "resource" "x" "aws_eip" "aws_eip.x" ∅ 2%Z 3%Z ]
          samples.two_resources.
Proof.
  apply (TerraformParser_identifier_by_block
           (samples.hcl_of (file_Content samples.two_resources_tf) samples.two_resources)
           context.Background samples.two_resources_tf midnight _ _ None eq_refl).
  - repeat constructor; left; (split; [|reflexivity]); set_solver.
  - reflexivity.
Defined.

(** The file with one resource: one record, two readings of the clock. *)
Lemma TerraformParser_Parse_returns_witness :
  exists objects,
    TerraformParser_Parse (samples.hcl_at "0xc00011e000") context.Background
      samples.ami_tf midnight
    = (Some (objects, None), advance 2 midnight)
    /\ length objects = 1.
Proof.
  apply (TerraformParser_Parse_returns (samples.hcl_at "0xc00011e000")
           context.Background samples.ami_tf midnight
           [samples.example_block_at "0xc00011e000"] eq_refl).
  repeat constructor; left; (split; [|reflexivity]); set_solver.
Defined.

(** The extension is compared without regard to case. *)
Lemma determineFileType_by_extension_witness :
  determineFileType "s3://bucket/MAIN.TF" = FileTypeTerraform.
Proof.
  exact (determineFileType_by_extension "s3://bucket/MAIN" "TF" eq_refl).
Defined.

End Instances.
